(** * commander-deck-generator: the browser client, embedded and verified

    The development follows three page components of the client:

    - [Results]   (the result presenter and its card classifier),
    - [Process]   (the job monitor: status fetch, log stream, hand-off),
    - [Generator] (commander selection and deck submission).

    JavaScript strings are Rocq [string]s read as UTF-8; every needle the
    program searches for is ASCII, so the substring test gives the same
    answer on UTF-8 bytes as on UTF-16 code units.  React state is passed
    explicitly; calls into the browser or the router ([alert], [navigate],
    [new WebSocket], [axios], [setTimeout], [console.error]) are recorded
    in an effect trace, and the answers of the network are inputs. *)

From Stdlib Require Import List String Ascii ZArith Bool Lia Permutation.
From Stdlib Require Import DecimalString.
Import ListNotations.
Open Scope string_scope.

(** ** JavaScript primitives used by the pages *)

Module Js.

(** [s.includes(key)]: does [key] occur in [s] as a contiguous run. *)
Fixpoint includes (s key : string) : bool :=
  if prefix key s then true
  else match s with
       | EmptyString => false
       | String _ s' => includes s' key
       end.

(** [arr.join(sep)]. *)
Definition join (sep : string) (arr : list string) : string :=
  String.concat sep arr.

(** The result of [parseInt] (or a numeric literal): [NaN], or the number
    read from the digits of an integer [z].  A number is a double, so
    [Int z] stands for the double nearest to [z] ([nearest_double] below);
    up to 2^53 in magnitude that is [z] itself. *)
Inductive number : Type :=
| NaN : number
| Int : Z -> number.

(** [n > k] on numbers, for [k] of magnitude at most 2^53; every comparison
    with [NaN] is false.  Rounding to the nearest double is monotone and
    leaves [k] in place, so comparing the integers compares the doubles. *)
Definition gtb (n : number) (k : Z) : bool :=
  match n with
  | NaN => false
  | Int z => Z.gtb z k
  end.

(** The decimal digits of a natural number. *)
Definition decimal (a : Z) : string :=
  NilZero.string_of_uint (N.to_uint (Z.to_N a)).

(** The binary exponent of the last place of the double that holds [a]:
    a double has 53 significant bits. *)
Definition last_place (a : Z) : Z := Z.max 0 (Z.log2 a - 52)%Z.

(** The double nearest to the natural number [a], ties to the even
    significand. *)
Definition nearest_double (a : Z) : Z :=
  let e := last_place a in
  let q := Z.shiftr a e in
  let r := (a - Z.shiftl q e)%Z in
  let half := Z.shiftl 1 (e - 1)%Z in
  let m :=
    if Z.eqb e 0 then q
    else if Z.gtb r half || (Z.eqb r half && Z.odd q) then (q + 1)%Z
    else q in
  Z.shiftl m e.

(** Does the natural number [x] round to the double [v], for [v] at least
    2^53?  Twice [x] is compared with twice the midpoints to the
    neighbouring doubles; a midpoint itself rounds to [v] when the
    significand of [v] is even.  Below a power of two the neighbour is at
    half the distance. *)
Definition rounds_to (v x : Z) : bool :=
  let e := last_place v in
  let m := Z.shiftr v e in
  let above := Z.shiftl 1 e in
  let below := if Z.eqb m (2 ^ 52)%Z then Z.shiftl 1 (e - 1)%Z else above in
  let low := (2 * v - below)%Z in
  let high := (2 * v + above)%Z in
  if Z.even m
  then Z.leb low (2 * x)%Z && Z.leb (2 * x)%Z high
  else Z.ltb low (2 * x)%Z && Z.ltb (2 * x)%Z high.

(** The shortest decimal that reads back as [v]: the multiple of the
    largest power of ten [10^p], [p] at most the given bound, that rounds
    to [v]; of the two multiples around [v] the closer one, the even one
    when they are as close.  The result is the multiple and [p]. *)
Fixpoint shortest (v : Z) (p : nat) : Z * nat :=
  match p with
  | O => (v, O)
  | S p' =>
      let unit := (10 ^ Z.of_nat p)%Z in
      let x1 := ((v / unit) * unit)%Z in
      let x2 := (x1 + unit)%Z in
      let ok1 := Z.ltb 0 x1 && rounds_to v x1 in
      let ok2 := rounds_to v x2 in
      if ok1 && ok2
      then if Z.ltb (v - x1)%Z (x2 - v)%Z then (x1, p)
           else if Z.ltb (x2 - v)%Z (v - x1)%Z then (x2, p)
           else if Z.even (x1 / unit)%Z then (x1, p) else (x2, p)
      else if ok1 then (x1, p)
      else if ok2 then (x2, p)
      else shortest v p'
  end.

(** [Number::toString] of the double nearest to the natural number [a]:
    all the digits up to 2^53; above, the shortest digits that read back
    as the double, followed by zeros while there are at most 21 digits in
    all and in exponent form beyond; [Infinity] from 2^1024. *)
Definition natural_to_string (a : Z) : string :=
  let v := nearest_double a in
  if Z.ltb v (2 ^ 53)%Z then decimal v
  else if Z.leb (2 ^ 1024)%Z v then "Infinity"
  else
    let (x, p) := shortest v (Z.to_nat (Z.log2 v)) in
    let digits := decimal (x / 10 ^ Z.of_nat p)%Z in
    let n := (String.length digits + p)%nat in
    if Nat.leb n 21 then decimal x
    else
      match digits with
      | EmptyString => ""
      | String d EmptyString =>
          String d ("e+" ++ decimal (Z.of_nat (n - 1)))
      | String d rest =>
          String d ("." ++ rest ++ "e+" ++ decimal (Z.of_nat (n - 1)))
      end.

(** [`${n}`] *)
Definition number_to_string (n : number) : string :=
  match n with
  | NaN => "NaN"
  | Int z =>
      if Z.ltb z 0 then "-" ++ natural_to_string (- z)%Z
      else natural_to_string z
  end.

(** What the substring test decides, as a proposition. *)
Definition Substring (key s : string) : Prop :=
  exists pre post, s = pre ++ key ++ post.

End Js.

(** The outcome of an awaited [axios] call: the response body, or a
    rejected promise (network failure, timeout, 4xx, 5xx). *)
Inductive response (A : Type) : Type :=
| Resolved : A -> response A
| Rejected : response A.
Arguments Resolved {A} _.
Arguments Rejected {A}.

(** ** Data model *)

Record Card : Type := mkCard {
  name : string;
  type_line : string;
  image_uri : option string;
  quantity : Z
}.

Record Combo : Type := mkCombo {
  combo_cards : list Card;
  result : string;
  instructions : string
}.

Record Deck : Type := mkDeck {
  commander : string;
  created_at : string;
  cards : list Card;
  combos : list Combo
}.

(** ** Effects *)

(** The JSON body of a POST request. *)
Inductive body : Type :=
| PromptBody (prompt : string)
| DeckBody (commander_name mode : string) (num_agents num_decks : Js.number)
           (use_owned_cards : bool).

(** A call that leaves the page; a trace lists them in the order they
    are made. *)
Inductive effect : Type :=
| HttpGet (url : string)
| HttpPost (url : string) (data : body)
| WsOpen (url : string)
| WsClose (url : string)
| SetTimeout (ms : Z)
| Navigate (path : string)
| Alert (text : string)
| ConsoleError
| ClipboardWrite (text : string)
| Download (file_name content : string).

Definition API_URL : string := "http://localhost:8000/api".
Definition WS_URL : string := "ws://localhost:8000/ws/process".

Definition is_navigate (e : effect) : bool :=
  match e with Navigate _ => true | _ => false end.

Definition is_ws_open (e : effect) : bool :=
  match e with WsOpen _ => true | _ => false end.

Definition is_request (e : effect) : bool :=
  match e with HttpGet _ | HttpPost _ _ => true | _ => false end.

(** Effects the user can see as a message. *)
Definition is_user_message (e : effect) : bool :=
  match e with Alert _ => true | _ => false end.

(** ** Results page: classifier and export *)

Module Results.

(** The [categories] object.  Its keys are strings that are not array
    indices, so [Object.keys] lists them in insertion order: an
    association list. *)
Definition object : Type := list (string * list Card).

Definition initial_categories : object :=
  [ ("Creature", []); ("Planeswalker", []); ("Instant", []); ("Sorcery", []);
    ("Artifact", []); ("Enchantment", []); ("Land", []) ].

(** [Object.keys(o)] *)
Definition keys (o : object) : list string := map fst o.

(** [o[k]]; [None] is [undefined]. *)
Fixpoint get (o : object) (k : string) : option (list Card) :=
  match o with
  | [] => None
  | (k', v) :: o' => if String.eqb k' k then Some v else get o' k
  end.

(** [o[k] = v]: overwrites in place, or appends a new last key. *)
Fixpoint set (o : object) (k : string) (v : list Card) : object :=
  match o with
  | [] => [(k, v)]
  | (k', v') :: o' =>
      if String.eqb k' k then (k', v) :: o' else (k', v') :: set o' k v
  end.

(** [o[k].push(card)]; [None] is the TypeError raised when [o[k]] is
    [undefined]. *)
Fixpoint push (o : object) (k : string) (card : Card) : option object :=
  match o with
  | [] => None
  | (k', v) :: o' =>
      if String.eqb k' k then Some ((k', (v ++ [card])%list) :: o')
      else match push o' k card with
           | Some o'' => Some ((k', v) :: o'')
           | None => None
           end
  end.

(** The body of the [forEach] callback, on the current [categories]. *)
Definition visit (categories : object) (card : Card) : option object :=
  let type := type_line card in
  match find (fun key => Js.includes type key) (keys categories) with
  | Some key => push categories key card
  | None =>
      let categories :=
        match get categories "Other" with
        | None => set categories "Other" []
        | Some _ => categories
        end in
      push categories "Other" card
  end.

(** [deck.cards.forEach(...)], threading the mutated object. *)
Fixpoint forEach (cs : list Card) (categories : object) : option object :=
  match cs with
  | [] => Some categories
  | card :: cs' =>
      match visit categories card with
      | Some categories' => forEach cs' categories'
      | None => None
      end
  end.

(** The categorisation pass of one render: a fresh object, then the loop. *)
Definition categorize (deck : Deck) : option object :=
  forEach (cards deck) initial_categories.

(** The cards of bucket [k]; an absent bucket has none. *)
Definition bucket (o : object) (k : string) : list Card :=
  match get o k with
  | Some v => v
  | None => []
  end.

(** *** The classifier in the words of the specification *)

(** The fixed ordered category list. *)
Definition category_names : list string :=
  [ "Creature"; "Planeswalker"; "Instant"; "Sorcery"; "Artifact";
    "Enchantment"; "Land" ].

(** The first category, in declared order, whose name occurs in the type
    line; ["Other"] when none does. *)
Definition classify (typeLine : string) : string :=
  match find (fun c => Js.includes typeLine c) category_names with
  | Some c => c
  | None => "Other"
  end.

Definition goes_to (k : string) (card : Card) : bool :=
  String.eqb (classify (type_line card)) k.

Definition unmatched (card : Card) : bool :=
  match find (fun c => Js.includes (type_line card) c) category_names with
  | Some _ => false
  | None => true
  end.

(** Every card held by the object, bucket after bucket. *)
Definition contents (o : object) : list Card := List.concat (map snd o).

(** [l1] is [l2] with some elements left out, the others in place. *)
Inductive Subsequence {A : Type} : list A -> list A -> Prop :=
| Subsequence_nil : Subsequence [] []
| Subsequence_skip x l1 l2 : Subsequence l1 l2 -> Subsequence l1 (x :: l2)
| Subsequence_keep x l1 l2 : Subsequence l1 l2 -> Subsequence (x :: l1) (x :: l2).

(** What the loop maintains, [seen] being the cards visited so far. *)
Definition Classified (seen : list Card) (o : object) : Prop :=
  keys o = (category_names ++ if existsb unmatched seen then ["Other"] else [])%list
  /\ forall k, In k (keys o) -> get o k = Some (filter (goes_to k) seen).

(** *** Export *)

Definition newline : string := String (ascii_of_nat 10) EmptyString.

(** The UTF-8 encodings of the characters in the regular expression
    class [\s]. *)
Definition utf8 (bytes : list nat) : string :=
  string_of_list_ascii (map ascii_of_nat bytes).

Definition white_space : list string :=
  map utf8
    [ [9]; [10]; [11]; [12]; [13]; [32]; [194; 160]; [225; 154; 128];
      [226; 128; 128]; [226; 128; 129]; [226; 128; 130]; [226; 128; 131];
      [226; 128; 132]; [226; 128; 133]; [226; 128; 134]; [226; 128; 135];
      [226; 128; 136]; [226; 128; 137]; [226; 128; 138]; [226; 128; 168];
      [226; 128; 169]; [226; 128; 175]; [226; 129; 159]; [227; 128; 128];
      [239; 187; 191] ].

(** [s.replace(/\s+/g, '_')].  [in_run] tells that the previous character
    was white space; [skip] counts the bytes still to drop of a white-space
    character longer than one byte. *)
Fixpoint replace_ws_from (s : string) (in_run : bool) (skip : nat) : string :=
  match s with
  | EmptyString => EmptyString
  | String a s' =>
      match skip with
      | S n => replace_ws_from s' in_run n
      | O =>
          match find (fun w => prefix w s) white_space with
          | Some w =>
              let rest := replace_ws_from s' true (String.length w - 1) in
              if in_run then rest else String "_" rest
          | None => String a (replace_ws_from s' false 0)
          end
      end
  end.

Definition replace_ws (s : string) : string := replace_ws_from s false 0.

Definition downloadDeck (deck : Deck) : list effect :=
  let content := Js.join newline (map (fun c => "1 " ++ name c) (cards deck)) in
  [Download (replace_ws (commander deck) ++ "_Deck.txt") content].

Definition copyDeck (deck : Deck) : list effect :=
  let content := Js.join newline (map (fun c => "1 " ++ name c) (cards deck)) in
  [ClipboardWrite content; Alert "Deck list copied to clipboard!"].

(** The export format in the words of the specification: one line
    ["1 {name}"] per card, in deck order. *)
Fixpoint exportAsText_lines (cs : list Card) : string :=
  match cs with
  | [] => ""
  | [c] => "1 " ++ name c
  | c :: cs' => "1 " ++ name c ++ newline ++ exportAsText_lines cs'
  end.

Definition exportAsText (deck : Deck) : string :=
  exportAsText_lines (cards deck).

(** *** The component *)

Record state : Type := mkState {
  deck : option Deck;
  showCombos : bool
}.

Definition initial : state := mkState None false.

(** The effect of [useEffect]: [fetchDeck] up to its [await]. *)
Definition fetchDeck_call (id : string) : list effect :=
  [HttpGet (API_URL ++ "/deck/" ++ id)].

(** [fetchDeck] after the [await] settles. *)
Definition fetchDeck_resume (r : response Deck) (st : state)
  : state * list effect :=
  match r with
  | Resolved data => (mkState (Some data) (showCombos st), [])
  | Rejected => (st, [ConsoleError])
  end.

(** What [CardSection] shows for one entry: nothing for an empty bucket. *)
Definition CardSection (entry : string * list Card)
  : option (string * list Card) :=
  match snd entry with
  | [] => None
  | _ :: _ => Some (fst entry ++ "s", snd entry)
  end.

(** The modal: the combos, and the notice when there are none. *)
Record modal : Type := mkModal {
  shown_combos : list Combo;
  no_combos_notice : bool
}.

Inductive view : Type :=
| Loading
| Page (title : string) (combo_count : nat)
       (sections : list (string * list Card)) (overlay : option modal)
| Threw.

Fixpoint omap_list {A B : Type} (f : A -> option B) (l : list A) : list B :=
  match l with
  | [] => []
  | x :: l' =>
      match f x with
      | Some y => y :: omap_list f l'
      | None => omap_list f l'
      end
  end.

Definition render (st : state) : view :=
  match deck st with
  | None => Loading
  | Some d =>
      match categorize d with
      | None => Threw
      | Some categories =>
          Page (commander d) (List.length (combos d))
               (omap_list CardSection categories)
               (if showCombos st
                then Some (mkModal (combos d)
                                   (Nat.eqb (List.length (combos d)) 0))
                else None)
      end
  end.

End Results.

(** ** Process page: the job monitor *)

Record LogEvent : Type := mkLog {
  timestamp : Z;
  agent_name : string;
  message : string
}.

Module Process.

Definition sentinel : string := "Deck generation complete.".

(** The component's React state. *)
Record state : Type := mkState {
  logs : list LogEvent;
  status : string
}.

(** The component together with what the browser holds for it: whether it
    is mounted, whether its socket exists and is not closed, how many
    status requests are awaited in all, whether the request issued by the
    instance mounted now is among them ([own_request]; the others were
    issued by instances unmounted since), the callbacks waiting on a timer
    (each is a [navigate] to the recorded path), and the calls made so
    far. *)
Record world : Type := mkWorld {
  page : state;
  mounted : bool;
  socket_open : bool;
  awaiting : nat;
  own_request : bool;
  timers : list string;
  trace : list effect
}.

Definition initial : world :=
  mkWorld (mkState [] "pending") false false 0 false [] [].

(** What can happen to the component.  A frame is the object
    [JSON.parse(event.data)] returns.  [StatusSettled] is an awaited status
    request settling: the one issued by the instance mounted now while
    that one is awaited, otherwise one issued by an earlier instance.
    [StaleSettled] is a request of an earlier instance settling, whether
    or not the mounted instance still awaits its own. *)
Inductive event : Type :=
| Mount
| StatusSettled (r : response string)
| Message (msg : LogEvent)
| Timeout
| Unmount
| StaleSettled (r : response string).

Definition emit (w : world) (es : list effect) : world :=
  mkWorld (page w) (mounted w) (socket_open w) (awaiting w) (own_request w)
          (timers w) (trace w ++ es).

(** A state setter: it has no effect once the component is unmounted. *)
Definition update (w : world) (f : state -> state) : world :=
  mkWorld (if mounted w then f (page w) else page w)
          (mounted w) (socket_open w) (awaiting w) (own_request w)
          (timers w) (trace w).

Definition setStatus (v : string) (st : state) : state :=
  mkState (logs st) v.

Definition setLogs (f : list LogEvent -> list LogEvent) (st : state) : state :=
  mkState (f (logs st)) (status st).

Section Job.

Variable id : string.

(** The body of [useEffect]: [checkStatus()] runs up to its [await], then
    the socket is constructed. *)
Definition effect_body (w : world) : world :=
  let w := emit w [HttpGet (API_URL ++ "/deck/" ++ id)] in
  let w := emit w [WsOpen (WS_URL ++ "/" ++ id)] in
  mkWorld (page w) true true (S (awaiting w)) true (timers w) (trace w).

(** [checkStatus] after its [await] settles, for the request issued by the
    instance mounted now: its [setStatus] is the page's.  [data_status] is
    [res.data.status]. *)
Definition checkStatus_resume (r : response string) (w : world) : world :=
  match r with
  | Resolved data_status =>
      let w := update w (setStatus data_status) in
      if String.eqb data_status "completed"
      then emit w [Navigate ("/results/" ++ id)]
      else w
  | Rejected => emit w [ConsoleError]
  end.

(** The same continuation for a request issued by an instance that has
    been unmounted since: its [setStatus] is that instance's and changes
    nothing on the page; [navigate] and [console.error] are called all the
    same. *)
Definition checkStatus_resume_stale (r : response string) (w : world)
  : world :=
  match r with
  | Resolved data_status =>
      if String.eqb data_status "completed"
      then emit w [Navigate ("/results/" ++ id)]
      else w
  | Rejected => emit w [ConsoleError]
  end.

(** [ws.onmessage]. *)
Definition onmessage (msg : LogEvent) (w : world) : world :=
  let w := update w (setLogs (fun prev => prev ++ [msg])%list) in
  if String.eqb (message msg) sentinel
  then
    let w := update w (setStatus "completed") in
    let w := emit w [SetTimeout 2000] in
    mkWorld (page w) (mounted w) (socket_open w) (awaiting w)
            (own_request w) (timers w ++ ["/results/" ++ id]) (trace w)
  else w.

(** The cleanup returned by the effect: [ws.close()].  The instance is
    gone afterwards: a status request it still awaits is no longer the
    mounted instance's. *)
Definition cleanup (w : world) : world :=
  let w := emit w [WsClose (WS_URL ++ "/" ++ id)] in
  mkWorld (page w) false false (awaiting w) false (timers w) (trace w).

(** One turn of the event loop.  Mounting is a fresh instance of the page
    for job [id]: it starts from the initial values of [useState] and runs
    the effect; unmounting is the page leaving the screen.  An event that
    cannot occur in the current world (a frame on a closed socket, a timer
    when none is pending, a settlement nobody awaits) leaves it
    unchanged. *)
Definition step (w : world) (e : event) : world :=
  match e with
  | Mount =>
      if mounted w then w
      else effect_body
             (mkWorld (mkState [] "pending") false (socket_open w)
                      (awaiting w) false (timers w) (trace w))
  | StatusSettled r =>
      match awaiting w with
      | O => w
      | S n =>
          let w' :=
            mkWorld (page w) (mounted w) (socket_open w) n false (timers w)
                    (trace w) in
          if own_request w then checkStatus_resume r w'
          else checkStatus_resume_stale r w'
      end
  | StaleSettled r =>
      match (awaiting w - if own_request w then 1 else 0)%nat with
      | O => w
      | S _ =>
          checkStatus_resume_stale r
            (mkWorld (page w) (mounted w) (socket_open w)
                     (Nat.pred (awaiting w)) (own_request w) (timers w)
                     (trace w))
      end
  | Message msg => if socket_open w then onmessage msg w else w
  | Timeout =>
      match timers w with
      | [] => w
      | path :: rest =>
          emit (mkWorld (page w) (mounted w) (socket_open w) (awaiting w)
                        (own_request w) rest (trace w))
               [Navigate path]
      end
  | Unmount => if mounted w then cleanup w else w
  end.

Definition run (w : world) (es : list event) : world :=
  fold_left step es w.

(** The worlds the component can be in. *)
Inductive Reachable : world -> Prop :=
| Reachable_initial : Reachable initial
| Reachable_step w e : Reachable w -> Reachable (step w e).

End Job.

Definition is_sentinel (msg : LogEvent) : bool :=
  String.eqb (message msg) sentinel.

(** How many frames of a sequence carry the sentinel. *)
Definition sentinels (msgs : list LogEvent) : nat :=
  List.length (filter is_sentinel msgs).

(** How many times [navigate] has been called. *)
Definition navigations (w : world) : nat :=
  List.length (filter is_navigate (trace w)).

(** How many sockets have been constructed. *)
Definition connections (w : world) : nat :=
  List.length (filter is_ws_open (trace w)).

(** What the page shows below the log. *)
Inductive footer : Type :=
| ViewResultsButton
| Collaborating.

Definition render (st : state) : list LogEvent * footer :=
  (logs st,
   if String.eqb (status st) "completed" then ViewResultsButton
   else Collaborating).

End Process.

(** ** Generator page: commander selection and deck submission *)

Module Generator.

Record Commander : Type := mkCommander {
  name : string;
  reasoning : string;
  image_uri : option string;
  commanders : list (string * option string)
}.

Record state : Type := mkState {
  prompt : string;
  commander : option Commander;
  loadingCmd : bool;
  mode : string;
  numAgents : Js.number;
  numDecks : Js.number;
  useOwned : bool
}.

Definition initial : state :=
  mkState "" None false "Thinking" (Js.Int 1) (Js.Int 1) false.

Definition setLoadingCmd (b : bool) (st : state) : state :=
  mkState (prompt st) (commander st) b (mode st) (numAgents st)
          (numDecks st) (useOwned st).

Definition setCommander (c : Commander) (st : state) : state :=
  mkState (prompt st) (Some c) (loadingCmd st) (mode st) (numAgents st)
          (numDecks st) (useOwned st).

(** [generateCommander] up to its [await]. *)
Definition generateCommander_call (st : state) : state * list effect :=
  (setLoadingCmd true st,
   [HttpPost (API_URL ++ "/generate/commander") (PromptBody (prompt st))]).

(** [generateCommander] after the [await] settles. *)
Definition generateCommander_resume (r : response Commander) (st : state)
  : state * list effect :=
  let (st, es) :=
    match r with
    | Resolved data => (setCommander data st, [])
    | Rejected => (st, [Alert "Failed to generate commander"])
    end in
  (setLoadingCmd false st, es).

(** The whole call, given how the request settles. *)
Definition generateCommander (r : response Commander) (st : state)
  : state * list effect :=
  let (st1, es1) := generateCommander_call st in
  let (st2, es2) := generateCommander_resume r st1 in
  (st2, (es1 ++ es2)%list).

(** [generateDeck], given how the request settles; [deck_id] is
    [res.data.deck_id]. *)
Definition generateDeck (r : response string) (st : state)
  : state * list effect :=
  match commander st with
  | None => (st, [])
  | Some c =>
      let request :=
        HttpPost (API_URL ++ "/generate/deck")
                 (DeckBody (name c) (mode st) (numAgents st) (numDecks st)
                           (useOwned st)) in
      match r with
      | Resolved deck_id =>
          (st,
           [request] ++
           (if Js.gtb (numDecks st) 1
            then [Alert ("Started generating "
                         ++ Js.number_to_string (numDecks st)
                         ++ " decks. Redirecting to the first one.")]
            else []) ++
           [Navigate ("/process/" ++ deck_id)])%list
      | Rejected => (st, [request; Alert "Failed to start generation"])
      end
  end.

End Generator.

(** ** Results page: the buttons *)

Module ResultsActions.
Import Results.

(** [setShowCombos(v)], the handler of the "Combo List" button ([true])
    and of the modal's close button ([false]). *)
Definition setShowCombos (v : bool) (st : state) : state :=
  mkState (deck st) v.

Definition sections_of (v : view) : list (string * list Card) :=
  match v with
  | Page _ _ sections _ => sections
  | _ => []
  end.

Definition overlay_of (v : view) : option modal :=
  match v with
  | Page _ _ _ overlay => overlay
  | _ => None
  end.

(** The headings the page can show, in the order it shows them. *)
Definition headings : list string :=
  [ "Creatures"; "Planeswalkers"; "Instants"; "Sorcerys"; "Artifacts";
    "Enchantments"; "Lands"; "Others" ].

(** [c] does not occur in [s]. *)
Fixpoint avoids (c : ascii) (s : string) : bool :=
  match s with
  | EmptyString => true
  | String a s' => negb (Ascii.eqb a c) && avoids c s'
  end.

(** The name [downloadDeck] gives the file. *)
Definition file_name (deck : Deck) : string :=
  match downloadDeck deck with
  | Download file _ :: _ => file
  | _ => ""
  end.

End ResultsActions.

(** ** Process page: reading the trace *)

Module ProcessTrace.
Import Process.

Definition is_ws_close (e : effect) : bool :=
  match e with WsClose _ => true | _ => false end.

(** How many sockets have been closed. *)
Definition closes (w : world) : nat :=
  List.length (filter is_ws_close (trace w)).

(** How many HTTP requests have been sent. *)
Definition requests (w : world) : nat :=
  List.length (filter is_request (trace w)).

(** The calls the monitor of job [id] makes. *)
Definition expected (id : string) (e : effect) : bool :=
  match e with
  | HttpGet url => String.eqb url (API_URL ++ "/deck/" ++ id)
  | WsOpen url | WsClose url => String.eqb url (WS_URL ++ "/" ++ id)
  | SetTimeout ms => Z.eqb ms 2000
  | Navigate path => String.eqb path ("/results/" ++ id)
  | ConsoleError => true
  | HttpPost _ _ | Alert _ | ClipboardWrite _ | Download _ _ => false
  end.

Definition is_mount (e : event) : bool :=
  match e with Mount => true | _ => false end.

(** The frames among a sequence of events, in order. *)
Fixpoint frames (es : list event) : list LogEvent :=
  match es with
  | [] => []
  | Message msg :: es' => msg :: frames es'
  | _ :: es' => frames es'
  end.

End ProcessTrace.

(** ** Generator page: what is shown *)

Module GeneratorView.
Import Generator.

(** [disabled={loadingCmd || !prompt}] on the "Generate Commander"
    button; the empty string is falsy. *)
Definition generate_disabled (st : state) : bool :=
  loadingCmd st || String.eqb (prompt st) "".

(** [a || b] on image references: [undefined] and the empty string are
    falsy. *)
Definition or_else (a b : option string) : option string :=
  match a with
  | Some (String _ _) => a
  | _ => b
  end.

Record image : Type := mkImage {
  src : option string;
  alt : string;
  label : option string
}.

(** The images of the commander preview: one per entry of
    [commander.commanders] when that list is present and not empty (an
    absent list is the empty one here), each with its name underneath when
    there are several; otherwise the single image of the commander. *)
Definition commander_images (c : Commander) : list image :=
  match commanders c with
  | [] => [mkImage (image_uri c) (name c) None]
  | _ :: _ =>
      map (fun cmd =>
             mkImage (or_else (snd cmd) (image_uri c)) (fst cmd)
                     (if Nat.ltb 1 (List.length (commanders c))
                      then Some (fst cmd) else None))
          (commanders c)
  end.

End GeneratorView.

(** ** Inventory page *)

Module Inventory.

Record item : Type := mkItem {
  id : string;
  card : Card
}.

Record state : Type := mkState {
  cards : list item;
  importText : string;
  newCardName : string;
  error : option string
}.

Definition initial : state := mkState [] "" "" None.

(** Calls that leave the page.  [Post url param value] is
    [axios.post(url, null, { params: { [param]: value } })]. *)
Inductive call : Type :=
| Get (url : string)
| Post (url param value : string)
| Delete (url : string)
| AlertBox (text : string)
| LogError.

(** What a rejected request carries: [err.response?.data?.detail], when
    there is one, and [err.message]. *)
Record failure : Type := mkFailure {
  detail : option string;
  message : string
}.

Inductive settled (A : Type) : Type :=
| Fulfilled : A -> settled A
| Failed : failure -> settled A.
Arguments Fulfilled {A} _.
Arguments Failed {A} _.

(** The answer to an import: [res.status] and [res.data.failed], which may
    be missing. *)
Record import_reply : Type := mkReply {
  reply_status : Z;
  failed : option (list string)
}.

Definition setCards (v : list item) (st : state) : state :=
  mkState v (importText st) (newCardName st) (error st).

Definition setImportText (v : string) (st : state) : state :=
  mkState (cards st) v (newCardName st) (error st).

Definition setNewCardName (v : string) (st : state) : state :=
  mkState (cards st) (importText st) v (error st).

Definition setError (v : option string) (st : state) : state :=
  mkState (cards st) (importText st) (newCardName st) v.

(** [fetchInventory] up to its [await]. *)
Definition fetchInventory_call : list call :=
  [Get (API_URL ++ "/inventory")].

(** [fetchInventory] after the [await] settles. *)
Definition fetchInventory_resume (r : settled (list item)) (st : state)
  : state * list call :=
  match r with
  | Fulfilled data => (setCards data st, [])
  | Failed _ => (st, [LogError])
  end.

(** [err.response?.data?.detail || err.message] *)
Definition reason (f : failure) : string :=
  match detail f with
  | Some (String a d) => String a d
  | _ => message f
  end.

(** [addCard], given how the request settles; on success it ends by
    calling [fetchInventory]. *)
Definition addCard (r : settled unit) (st : state) : state * list call :=
  let request := Post (API_URL ++ "/inventory/add") "card_name" (newCardName st) in
  match r with
  | Fulfilled _ =>
      (setNewCardName "" st, request :: fetchInventory_call)
  | Failed f =>
      (setError (Some ("Failed to add card: " ++ reason f)) st, [request])
  end.

(** [deleteCard(id)], given how the request settles. *)
Definition deleteCard (card_id : string) (r : settled unit) (st : state)
  : state * list call :=
  let request := Delete (API_URL ++ "/inventory/" ++ card_id) in
  match r with
  | Fulfilled _ => (st, request :: fetchInventory_call)
  | Failed _ => (st, [request; LogError])
  end.

(** [importCards], given how the request settles.  With status 207 and no
    [failed] list, [res.data.failed.join] throws inside the [try] and the
    [catch] runs. *)
Definition importCards (r : settled import_reply) (st : state)
  : state * list call :=
  let request := Post (API_URL ++ "/inventory/import") "text" (importText st) in
  match r with
  | Fulfilled res =>
      if Z.eqb (reply_status res) 207
      then match failed res with
           | Some names =>
               (setImportText "" st,
                [request;
                 AlertBox ("Imported with failures:" ++ Results.newline
                           ++ Js.join ", " names)]
                ++ fetchInventory_call)%list
           | None => (setError (Some "Import failed.") st, [request])
           end
      else (setImportText "" st, request :: fetchInventory_call)
  | Failed _ => (setError (Some "Import failed.") st, [request])
  end.

(** What the user, or a request settling, does to the page; [Mounted] is
    the effect that runs once the page is there, a call of
    [fetchInventory]. *)
Inductive event : Type :=
| Mounted
| InventoryFetched (r : settled (list item))
| AddCard (r : settled unit)
| DeleteCard (card_id : string) (r : settled unit)
| ImportCards (r : settled import_reply)
| TypeCardName (text : string)
| TypeImportText (text : string)
| FileLoaded (text : string)
| DismissError.

Definition step (st : state) (e : event) : state * list call :=
  match e with
  | Mounted => (st, fetchInventory_call)
  | InventoryFetched r => fetchInventory_resume r st
  | AddCard r => addCard r st
  | DeleteCard card_id r => deleteCard card_id r st
  | ImportCards r => importCards r st
  | TypeCardName text => (setNewCardName text st, [])
  | TypeImportText text => (setImportText text st, [])
  | FileLoaded text => (setImportText text st, [])
  | DismissError => (setError None st, [])
  end.

Fixpoint run (st : state) (es : list event) : state * list call :=
  match es with
  | [] => (st, [])
  | e :: es' =>
      let (st1, cs1) := step st e in
      let (st2, cs2) := run st1 es' in
      (st2, (cs1 ++ cs2)%list)
  end.

Definition is_dismiss (e : event) : bool :=
  match e with DismissError => true | _ => false end.

Definition is_fetched (e : event) : bool :=
  match e with InventoryFetched (Fulfilled _) => true | _ => false end.

Definition is_refetch (c : call) : bool :=
  match c with
  | Get url => String.eqb url (API_URL ++ "/inventory")
  | _ => false
  end.

Definition is_alert (c : call) : bool :=
  match c with AlertBox _ => true | _ => false end.

End Inventory.

(** ** Inventory page: reading a run *)

Module InventoryTrace.
Import Inventory.

(** The import was taken: the request was fulfilled and its answer could
    be read. *)
Definition import_taken (r : settled import_reply) : bool :=
  match r with
  | Fulfilled res =>
      negb (Z.eqb (reply_status res) 207
            && match failed res with None => true | Some _ => false end)
  | Failed _ => false
  end.

(** The banner [{error && ...}] shows: the text held, unless it is [null]
    or empty. *)
Definition banner (st : state) : option string :=
  match error st with
  | Some (String a text) => Some (String a text)
  | _ => None
  end.

Definition is_mounted (e : event) : bool :=
  match e with Mounted => true | _ => false end.

Definition fulfilled {A : Type} (r : settled A) : bool :=
  match r with Fulfilled _ => true | Failed _ => false end.

(** The event is a change of the inventory that the server accepted. *)
Definition accepted (e : event) : bool :=
  match e with
  | AddCard r => fulfilled r
  | DeleteCard _ r => fulfilled r
  | ImportCards r => import_taken r
  | _ => false
  end.

End InventoryTrace.

(** ** Sample data *)

Definition dryad_arbor : Card :=
  mkCard "Dryad Arbor" "Land Creature - Forest Dryad" None 1.

Definition sample_deck : Deck :=
  mkDeck "Atraxa, Praetors' Voice" "2024-05-01"
         [ dryad_arbor;
           mkCard "Secret Summoning" "Conspiracy" None 1;
           mkCard "Sol Ring" "Artifact" None 4;
           dryad_arbor ]
         []%list.

Definition sentinel_frame : LogEvent :=
  mkLog 1714564800 "System" "Deck generation complete.".

Definition progress_frame : LogEvent :=
  mkLog 1714564790 "Agent 1" "Picking ramp spells".

Definition krenko : Generator.Commander :=
  Generator.mkCommander "Krenko, Mob Boss" "Goblins, fast." None []%list.

Definition goblin_request : Generator.state :=
  Generator.mkState "a fast goblin aggro deck" (Some krenko) false "Thinking"
                    (Js.Int 1) (Js.Int 3) false.

Definition partner_pair : Generator.Commander :=
  Generator.mkCommander "Tymna the Weaver // Thrasios, Triton Hero"
    "Two partners." (Some "https://img.example/pair.jpg")
    [ ("Tymna the Weaver", Some "https://img.example/tymna.jpg");
      ("Thrasios, Triton Hero", None) ]%list.

Definition failed_add : Inventory.state :=
  Inventory.mkState []%list "" "Sol Rng" (Some "Failed to add card: Card not found").

(** * Properties *)

Open Scope list_scope.

(** ** Sample runs *)

Example categorize_sample :
  Results.categorize sample_deck
  = Some
      [ ("Creature", [dryad_arbor; dryad_arbor]);
        ("Planeswalker", []); ("Instant", []); ("Sorcery", []);
        ("Artifact", [mkCard "Sol Ring" "Artifact" None 4]);
        ("Enchantment", []); ("Land", []);
        ("Other", [mkCard "Secret Summoning" "Conspiracy" None 1]) ].
Proof. reflexivity. Qed.

Example render_sample :
  Results.render (Results.mkState (Some sample_deck) false)
  = Results.Page "Atraxa, Praetors' Voice" 0
      [ ("Creatures", [dryad_arbor; dryad_arbor]);
        ("Artifacts", [mkCard "Sol Ring" "Artifact" None 4]);
        ("Others", [mkCard "Secret Summoning" "Conspiracy" None 1]) ]
      None.
Proof. reflexivity. Qed.

Example includes_is_case_sensitive :
  Js.includes "Legendary creature" "Creature" = false
  /\ Js.includes "Legendary Creature" "Creature" = true.
Proof. split; reflexivity. Qed.

Example download_sample :
  Results.downloadDeck sample_deck
  = [Download "Atraxa,_Praetors'_Voice_Deck.txt"
       ("1 Dryad Arbor" ++ Results.newline ++ "1 Secret Summoning"
        ++ Results.newline ++ "1 Sol Ring" ++ Results.newline
        ++ "1 Dryad Arbor")%string].
Proof. reflexivity. Qed.

Example replace_ws_runs :
  Results.replace_ws
    ("Jodah" ++ Results.utf8 [32; 9; 226; 128; 168] ++ "the" ++ Results.utf8 [194; 160]
     ++ "Unifier ")%string
  = "Jodah_the_Unifier_".
Proof. reflexivity. Qed.

Example monitor_sample_run :
  Process.trace
    (Process.run "42" Process.initial
       [Process.Mount; Process.StatusSettled (Resolved "processing");
        Process.Message progress_frame; Process.Message sentinel_frame;
        Process.Timeout; Process.Unmount])
  = [HttpGet "http://localhost:8000/api/deck/42";
     WsOpen "ws://localhost:8000/ws/process/42";
     SetTimeout 2000;
     Navigate "/results/42";
     WsClose "ws://localhost:8000/ws/process/42"].
Proof. reflexivity. Qed.

(** ** Strings *)

Lemma prefix_iff (k s : string) :
  prefix k s = true <-> exists post, s = (k ++ post)%string.
Proof.
  revert s. induction k as [|a k IH]; intros s; simpl.
  - split; [intros _; now exists s | now destruct s].
  - destruct s as [|b s].
    + split; [discriminate | intros [post H]; discriminate].
    + simpl. destruct (ascii_dec a b) as [->|Hab].
      * rewrite IH. split; intros [post H]; exists post.
        -- now rewrite H.
        -- now inversion H.
      * split; [discriminate | intros [post H]; inversion H; congruence].
Qed.

Lemma includes_unfold (s key : string) :
  Js.includes s key =
  prefix key s
  || match s with
     | EmptyString => false
     | String _ s' => Js.includes s' key
     end.
Proof.
  destruct s as [|a s]; simpl.
  - now destruct (prefix key "").
  - now destruct (prefix key (String a s)).
Qed.

Lemma includes_iff (s key : string) :
  Js.includes s key = true <-> Js.Substring key s.
Proof.
  unfold Js.Substring. induction s as [|a s IH];
    rewrite includes_unfold, orb_true_iff, prefix_iff.
  - split.
    + intros [[post H]|H]; [now exists "", post | discriminate].
    + intros (pre & post & H). left. destruct pre; [|discriminate].
      now exists post.
  - rewrite IH. split.
    + intros [[post H]|(pre & post & H)].
      * now exists "", post.
      * exists (String a pre), post. simpl. now rewrite H.
    + intros (pre & post & H). destruct pre as [|b pre].
      * left. now exists post.
      * right. inversion H. now exists pre, post.
Qed.

Lemma includes_false_iff (s key : string) :
  Js.includes s key = false <-> ~ Js.Substring key s.
Proof.
  rewrite <- includes_iff. destruct (Js.includes s key); split; congruence.
Qed.

(** ** Lists *)

Lemma find_app {A : Type} (f : A -> bool) (l1 l2 : list A) :
  find f (l1 ++ l2) =
  match find f l1 with Some x => Some x | None => find f l2 end.
Proof.
  induction l1 as [|x l1 IH]; simpl; [reflexivity|].
  now destruct (f x).
Qed.

Lemma find_first {A : Type} (f : A -> bool) (l : list A) (x : A) :
  find f l = Some x ->
  exists pre post,
    l = pre ++ x :: post /\ f x = true /\ forall y, In y pre -> f y = false.
Proof.
  induction l as [|a l IH]; simpl; [discriminate|].
  destruct (f a) eqn:E.
  - intros [= <-]. exists [], l. repeat split; [assumption | intros y []].
  - intros H. destruct (IH H) as (pre & post & -> & Hx & Hpre).
    exists (a :: pre), post. repeat split; [assumption|].
    intros y [<-|Hy]; auto.
Qed.

Lemma find_none_all {A : Type} (f : A -> bool) (l : list A) :
  find f l = None <-> forall y, In y l -> f y = false.
Proof.
  induction l as [|a l IH]; simpl.
  - split; [intros _ y [] | reflexivity].
  - destruct (f a) eqn:E.
    + split; [discriminate|]. intros H. specialize (H a (or_introl eq_refl)).
      congruence.
    + rewrite IH. split.
      * intros H y [<-|Hy]; auto.
      * intros H y Hy. apply H. now right.
Qed.

Lemma Subsequence_nil_l {A : Type} (l : list A) : Results.Subsequence [] l.
Proof. induction l; now constructor. Qed.

Lemma filter_Subsequence {A : Type} (f : A -> bool) (l : list A) :
  Results.Subsequence (filter f l) l.
Proof.
  induction l as [|x l IH]; simpl; [constructor|].
  destruct (f x); now constructor.
Qed.

(** ** The [categories] object *)

Module ObjectFacts.
Import Results.

Lemma get_none (o : object) (k : string) :
  get o k = None <-> ~ In k (keys o).
Proof.
  induction o as [|[k0 v0] o IH]; simpl.
  - split; [intros _ [] | reflexivity].
  - destruct (String.eqb_spec k0 k) as [->|Hne].
    + split; [discriminate | intros H; exfalso; apply H; now left].
    + rewrite IH. split; [intros H [E|Hin]; congruence | tauto].
Qed.

Lemma push_get (o : object) (k : string) (v : list Card) (card : Card) :
  get o k = Some v ->
  exists o',
    push o k card = Some o'
    /\ keys o' = keys o
    /\ forall k', get o' k' =
                  if String.eqb k k' then Some (v ++ [card]) else get o k'.
Proof.
  induction o as [|[k0 v0] o IH]; simpl; [discriminate|].
  destruct (String.eqb_spec k0 k) as [->|Hne].
  - intros [= ->]. eexists. split; [reflexivity|]. split; [reflexivity|].
    intros k'. simpl. now destruct (String.eqb k k').
  - intros H. destruct (IH H) as (o' & -> & Hk & Hg).
    eexists. split; [reflexivity|]. split; [simpl; now rewrite Hk|].
    intros k'. simpl. rewrite Hg.
    destruct (String.eqb_spec k0 k') as [->|Hne']; [|reflexivity].
    destruct (String.eqb_spec k k'); congruence.
Qed.

Lemma set_absent (o : object) (k : string) (v : list Card) :
  get o k = None ->
  keys (set o k v) = keys o ++ [k]
  /\ contents (set o k []) = contents o
  /\ forall k', get (set o k v) k' =
                if String.eqb k k' then Some v else get o k'.
Proof.
  unfold contents.
  induction o as [|[k0 v0] o IH]; simpl.
  - intros _. split; [reflexivity|]. split; [reflexivity|]. reflexivity.
  - destruct (String.eqb_spec k0 k) as [->|Hne]; [discriminate|].
    intros H. destruct (IH H) as (Hk & Hc & Hg).
    simpl. rewrite Hk, Hc. split; [reflexivity|]. split; [reflexivity|].
    intros k'. rewrite Hg.
    destruct (String.eqb_spec k0 k') as [->|Hne']; [|reflexivity].
    destruct (String.eqb_spec k k'); congruence.
Qed.

(** A push adds the card to the object once. *)
Lemma push_contents (o o' : object) (k : string) (card : Card) :
  push o k card = Some o' ->
  Permutation (contents o') (card :: contents o).
Proof.
  unfold contents. revert o'.
  induction o as [|[k0 v0] o IH]; simpl; intros o'; [discriminate|].
  destruct (String.eqb k0 k).
  - intros [= <-]. simpl. rewrite <- app_assoc.
    symmetry. apply Permutation_middle.
  - destruct (push o k card) as [o1|]; [|discriminate].
    intros [= <-]. simpl.
    rewrite (IH o1 eq_refl). symmetry. apply Permutation_middle.
Qed.

End ObjectFacts.

(** ** The classifier loop *)

Module ClassifierFacts.
Import Results ObjectFacts.

Lemma keys_initial : keys initial_categories = category_names.
Proof. reflexivity. Qed.

Lemma Other_not_category : ~ In "Other" category_names.
Proof. simpl. intuition discriminate. Qed.

Lemma classify_found (t k : string) :
  find (fun c => Js.includes t c) category_names = Some k -> classify t = k.
Proof. unfold classify. now intros ->. Qed.

Lemma classify_missed (t : string) :
  find (fun c => Js.includes t c) category_names = None ->
  classify t = "Other".
Proof. unfold classify. now intros ->. Qed.

Lemma filter_snoc (k : string) (seen : list Card) (card : Card) :
  filter (goes_to k) (seen ++ [card]) =
  filter (goes_to k) seen ++ if goes_to k card then [card] else [].
Proof. rewrite filter_app. simpl. now destruct (goes_to k card). Qed.

Lemma Classified_initial : Classified [] initial_categories.
Proof.
  split; [reflexivity|].
  intros k Hk. simpl in Hk.
  repeat (destruct Hk as [<-|Hk]; [reflexivity|]). destruct Hk.
Qed.

(** After a push into the bucket the card classifies to, the invariant
    holds for one more card. *)
Lemma Classified_push (seen : list Card) (o : object) (card : Card)
      (extra : list string) :
  keys o = category_names ++ extra ->
  (forall k, In k (keys o) -> get o k = Some (filter (goes_to k) seen)) ->
  In (classify (type_line card)) (keys o) ->
  (category_names ++ extra =
   category_names ++ if existsb unmatched (seen ++ [card]) then ["Other"] else []) ->
  exists o',
    push o (classify (type_line card)) card = Some o'
    /\ Classified (seen ++ [card]) o'.
Proof.
  intros Hkeys Hget Hin Hextra.
  destruct (push_get o _ _ card (Hget _ Hin)) as (o' & Hpush & Hk & Hg).
  exists o'. split; [assumption|]. split.
  - now rewrite Hk, Hkeys.
  - intros k Hink. rewrite Hk in Hink. rewrite Hg, filter_snoc.
    change (goes_to k card) with (String.eqb (classify (type_line card)) k).
    destruct (String.eqb_spec (classify (type_line card)) k) as [->|Hne].
    + reflexivity.
    + rewrite (Hget _ Hink). now rewrite app_nil_r.
Qed.

Lemma existsb_snoc (seen : list Card) (card : Card) :
  existsb unmatched (seen ++ [card]) = existsb unmatched seen || unmatched card.
Proof. rewrite existsb_app. simpl. now rewrite orb_false_r. Qed.

(** While no card is unmatched, nothing classifies to ["Other"]. *)
Lemma no_unmatched_filter (seen : list Card) :
  existsb unmatched seen = false -> filter (goes_to "Other") seen = [].
Proof.
  induction seen as [|c seen IH]; simpl; [reflexivity|].
  intros H. apply orb_false_elim in H. destruct H as [Hc Hs].
  unfold goes_to at 1, classify. unfold unmatched in Hc.
  destruct (find _ category_names) as [key|] eqn:E; [|discriminate].
  destruct (String.eqb_spec key "Other") as [->|_]; [|now apply IH].
  apply find_some in E. destruct E as [E _].
  now apply Other_not_category in E.
Qed.

Lemma visit_Classified (seen : list Card) (o : object) (card : Card) :
  Classified seen o ->
  exists o', visit o card = Some o' /\ Classified (seen ++ [card]) o'.
Proof.
  intros [Hkeys Hget]. unfold visit. rewrite Hkeys, find_app.
  destruct (find (fun key => Js.includes (type_line card) key) category_names)
    as [key|] eqn:Efind.
  - (* matched by a declared category *)
    rewrite <- (classify_found _ _ Efind).
    apply (Classified_push seen o card _ Hkeys Hget).
    + rewrite Hkeys, (classify_found _ _ Efind). apply in_or_app. left.
      destruct (find_first _ _ _ Efind) as (pre & post & -> & _).
      apply in_or_app. right. now left.
    + rewrite existsb_snoc. unfold unmatched at 3. rewrite Efind.
      now rewrite orb_false_r.
  - (* no declared category occurs in the type line *)
    assert (Hun : unmatched card = true) by (unfold unmatched; now rewrite Efind).
    pose proof (classify_missed _ Efind) as Hother.
    destruct (existsb unmatched seen) eqn:Eseen.
    + (* the bucket exists already *)
      assert (HinO : In "Other" (keys o))
        by (rewrite Hkeys; apply in_or_app; right; now left).
      assert (Hpush : exists o', push o "Other" card = Some o'
                                 /\ Classified (seen ++ [card]) o').
      { rewrite <- Hother.
        apply (Classified_push seen o card _ Hkeys Hget).
        - now rewrite Hother.
        - now rewrite existsb_snoc, Eseen. }
      simpl. rewrite (Hget _ HinO).
      now destruct (Js.includes (type_line card) "Other").
    + (* the bucket is created first *)
      simpl.
      assert (Habs : get o "Other" = None).
      { apply get_none. rewrite Hkeys, app_nil_r. apply Other_not_category. }
      rewrite Habs.
      destruct (set_absent o "Other" [] Habs) as (Hk & _ & Hg).
      rewrite <- Hother.
      apply (Classified_push seen _ card ["Other"]).
      * now rewrite Hother, Hk, Hkeys, app_nil_r.
      * intros k Hink. rewrite Hother, Hg.
        destruct (String.eqb_spec "Other" k) as [<-|Hne].
        -- now rewrite (no_unmatched_filter _ Eseen).
        -- apply Hget. rewrite Hother, Hk in Hink.
           apply in_app_or in Hink. destruct Hink as [Hink|[E|[]]]; congruence.
      * rewrite Hother, Hk. apply in_or_app. right. now left.
      * now rewrite existsb_snoc, Eseen, Hun.
Qed.

Lemma forEach_Classified (cs seen : list Card) (o : object) :
  Classified seen o ->
  exists o', forEach cs o = Some o' /\ Classified (seen ++ cs) o'.
Proof.
  revert seen o. induction cs as [|card cs IH]; intros seen o H; simpl.
  - exists o. now rewrite app_nil_r.
  - destruct (visit_Classified seen o card H) as (o1 & -> & H1).
    destruct (IH _ _ H1) as (o' & Hrun & H').
    exists o'. split; [assumption|]. now rewrite <- app_assoc in H'.
Qed.

(** The loop never throws, and its result is the classification. *)
Lemma categorize_Classified (deck : Deck) :
  exists o, categorize deck = Some o /\ Classified (cards deck) o.
Proof. apply (forEach_Classified (cards deck) [] _ Classified_initial). Qed.

End ClassifierFacts.

(** ** What the buckets hold *)

Module BucketFacts.
Import Results ObjectFacts ClassifierFacts.

Lemma NoDup_category_names : NoDup category_names.
Proof.
  unfold category_names.
  repeat (constructor; [simpl; intuition discriminate|]). constructor.
Qed.

Lemma bucket_filter (cs : list Card) (o : object) (k : string) :
  Classified cs o -> In k (keys o) -> bucket o k = filter (goes_to k) cs.
Proof. intros [_ Hget] Hk. unfold bucket. now rewrite (Hget k Hk). Qed.

Lemma bucket_absent (o : object) (k : string) :
  ~ In k (keys o) -> bucket o k = [].
Proof. intros H. apply get_none in H. unfold bucket. now rewrite H. Qed.

Lemma unmatched_iff (card : Card) :
  unmatched card = true <->
  forall k, In k category_names -> ~ Js.Substring k (type_line card).
Proof.
  unfold unmatched.
  destruct (find _ category_names) as [key|] eqn:E.
  - split; [discriminate|]. intros H. exfalso.
    apply find_some in E. destruct E as [Hin Hinc].
    apply (H key Hin). now apply includes_iff.
  - split; [|reflexivity]. intros _ k Hk.
    apply includes_false_iff. revert k Hk. now apply find_none_all.
Qed.

Lemma classify_Other_iff (t : string) :
  classify t = "Other" <->
  forall k, In k category_names -> ~ Js.Substring k t.
Proof.
  unfold classify.
  destruct (find _ category_names) as [key|] eqn:E.
  - apply find_some in E. destruct E as [Hin Hinc]. split.
    + intros ->. now apply Other_not_category in Hin.
    + intros H. exfalso. apply (H key Hin). now apply includes_iff.
  - split; [|reflexivity]. intros _ k Hk.
    apply includes_false_iff. revert k Hk. now apply find_none_all.
Qed.

(** [classify] picks the first category that occurs, in declared order. *)
Lemma classify_category_iff (t : string) (pre post : list string) (k : string) :
  category_names = pre ++ k :: post ->
  classify t = k <->
  Js.Substring k t /\ forall k', In k' pre -> ~ Js.Substring k' t.
Proof.
  intros Hsplit.
  pose proof NoDup_category_names as Hnd. rewrite Hsplit in Hnd.
  pose proof (NoDup_remove_2 _ _ _ Hnd) as Hnotin.
  assert (Hk : k <> "Other").
  { intros ->. apply Other_not_category. rewrite Hsplit.
    apply in_or_app. right. now left. }
  unfold classify. rewrite Hsplit, find_app. simpl.
  destruct (find (fun c => Js.includes t c) pre) as [x|] eqn:Epre.
  - apply find_some in Epre. destruct Epre as [Hx Hinc]. split.
    + intros ->. exfalso. apply Hnotin, in_or_app. now left.
    + intros [_ H]. exfalso. apply (H x Hx). now apply includes_iff.
  - assert (Hpre : forall k', In k' pre -> ~ Js.Substring k' t).
    { intros k' Hk'. apply includes_false_iff. revert k' Hk'.
      now apply find_none_all. }
    destruct (Js.includes t k) eqn:Ek.
    + split; [intros _|reflexivity]. split; [now apply includes_iff | exact Hpre].
    + apply includes_false_iff in Ek. split; [|tauto].
      destruct (find (fun c => Js.includes t c) post) as [y|] eqn:Epost.
      * intros ->. exfalso. apply find_some in Epost.
        apply Hnotin, in_or_app. right. tauto.
      * congruence.
Qed.

Lemma classify_in_keys (cs : list Card) (o : object) (card : Card) :
  Classified cs o -> In card cs -> In (classify (type_line card)) (keys o).
Proof.
  intros [Hkeys _] Hin. rewrite Hkeys. apply in_or_app.
  unfold classify.
  destruct (find _ category_names) as [key|] eqn:E.
  - left. apply find_some in E. tauto.
  - right.
    assert (Hex : existsb unmatched cs = true).
    { apply existsb_exists. exists card. split; [assumption|].
      unfold unmatched. now rewrite E. }
    rewrite Hex. now left.
Qed.

(** A card of the deck is in bucket [k] exactly when it classifies to [k]. *)
Lemma in_bucket_iff (cs : list Card) (o : object) (card : Card) (k : string) :
  Classified cs o -> In card cs ->
  In card (bucket o k) <-> classify (type_line card) = k.
Proof.
  intros Hc Hin. split.
  - intros Hb. destruct (in_dec string_dec k (keys o)) as [Hk|Hk].
    + rewrite (bucket_filter _ _ _ Hc Hk) in Hb.
      apply filter_In in Hb. destruct Hb as [_ Hb].
      now apply String.eqb_eq in Hb.
    + rewrite (bucket_absent _ _ Hk) in Hb. destruct Hb.
  - intros <-.
    rewrite (bucket_filter _ _ _ Hc (classify_in_keys _ _ _ Hc Hin)).
    apply filter_In. split; [assumption|]. apply String.eqb_refl.
Qed.

Lemma visit_contents (o o' : object) (card : Card) :
  visit o card = Some o' -> Permutation (contents o') (card :: contents o).
Proof.
  unfold visit.
  destruct (find _ (keys o)) as [key|].
  - apply push_contents.
  - destruct (get o "Other") eqn:E.
    + apply push_contents.
    + intros H. apply push_contents in H.
      destruct (set_absent o "Other" [] E) as (_ & Hc & _).
      now rewrite Hc in H.
Qed.

Lemma forEach_contents (cs : list Card) (o o' : object) :
  forEach cs o = Some o' -> Permutation (contents o') (contents o ++ cs).
Proof.
  revert o. induction cs as [|card cs IH]; intros o; simpl.
  - intros [= ->]. now rewrite app_nil_r.
  - destruct (visit o card) as [o1|] eqn:E; [|discriminate].
    intros H. rewrite (IH _ H), (visit_contents _ _ _ E).
    simpl. apply Permutation_middle.
Qed.

End BucketFacts.

(** ** The classifier: claims *)

Section ClassifierClaims.
Import Results ObjectFacts ClassifierFacts BucketFacts.

(** C2.  The categorisation pass returns, and a card of the deck lies in
    the bucket of a declared category exactly when that category's name
    occurs in the card's type line and no category declared earlier does;
    it lies in ["Other"] exactly when no declared name occurs.  A card
    whose type line contains both "Creature" and "Land" is in the
    "Creature" bucket and not in the "Land" bucket. *)
Theorem classifier_first_match (deck : Deck) (card : Card)
        (Hcard : In card (cards deck)) :
  exists o,
    categorize deck = Some o
    /\ (forall pre k post,
           category_names = pre ++ k :: post ->
           In card (bucket o k) <->
           Js.Substring k (type_line card)
           /\ forall k', In k' pre -> ~ Js.Substring k' (type_line card))
    /\ (In card (bucket o "Other") <->
        forall k, In k category_names -> ~ Js.Substring k (type_line card))
    /\ (Js.Substring "Creature" (type_line card) ->
        Js.Substring "Land" (type_line card) ->
        In card (bucket o "Creature") /\ ~ In card (bucket o "Land")).
Proof.
  destruct (categorize_Classified deck) as (o & Hrun & Hc).
  exists o. split; [assumption|]. split; [|split].
  - intros pre k post Hsplit.
    rewrite (in_bucket_iff _ _ _ k Hc Hcard).
    now apply classify_category_iff with (post := post).
  - rewrite (in_bucket_iff _ _ _ "Other" Hc Hcard).
    apply classify_Other_iff.
  - intros Hcreature _.
    assert (Hcl : classify (type_line card) = "Creature").
    { apply (classify_category_iff _ [] (tl category_names) "Creature");
        [reflexivity|]. split; [assumption | intros k' []]. }
    rewrite !(in_bucket_iff _ _ _ _ Hc Hcard), Hcl.
    split; [reflexivity | discriminate].
Qed.

Lemma classifier_first_match_witness :
  exists o,
    categorize sample_deck = Some o
    /\ (forall pre k post,
           category_names = pre ++ k :: post ->
           In dryad_arbor (bucket o k) <->
           Js.Substring k (type_line dryad_arbor)
           /\ forall k', In k' pre -> ~ Js.Substring k' (type_line dryad_arbor))
    /\ (In dryad_arbor (bucket o "Other") <->
        forall k, In k category_names -> ~ Js.Substring k (type_line dryad_arbor))
    /\ (Js.Substring "Creature" (type_line dryad_arbor) ->
        Js.Substring "Land" (type_line dryad_arbor) ->
        In dryad_arbor (bucket o "Creature") /\ ~ In dryad_arbor (bucket o "Land")).
Proof.
  apply (classifier_first_match sample_deck dryad_arbor).
  simpl. left. reflexivity.
Defined.

(** C3.  Over any list of cards with string type lines the pass returns
    a result (it never throws); the buckets together hold exactly the
    cards of the deck, each occurrence once; every card of the deck is in
    one bucket and in no other; a card in whose type line no declared
    category name occurs is in "Other" and nowhere else, in particular a
    card whose type line is "Conspiracy"; and a pass over the same card
    list returns the same buckets. *)
Theorem classifier_total_deterministic (deck : Deck) :
  exists o,
    categorize deck = Some o
    /\ Permutation (contents o) (cards deck)
    /\ (forall card, In card (cards deck) ->
          exists k, In k (keys o) /\ In card (bucket o k)
                    /\ forall k', In card (bucket o k') -> k' = k)
    /\ (forall card, In card (cards deck) ->
          (forall k, In k category_names ->
                     ~ Js.Substring k (type_line card)) ->
          In "Other" (keys o)
          /\ In card (bucket o "Other")
          /\ forall k', In card (bucket o k') -> k' = "Other")
    /\ (forall card, In card (cards deck) ->
          type_line card = "Conspiracy" -> In card (bucket o "Other"))
    /\ (forall k, In k category_names -> ~ Js.Substring k "Conspiracy")
    /\ (forall deck', cards deck' = cards deck -> categorize deck' = Some o).
Proof.
  destruct (categorize_Classified deck) as (o & Hrun & Hc).
  exists o. split; [assumption|].
  split; [|split; [|split; [|split; [|split]]]].
  - apply (forEach_contents _ _ _ Hrun).
  - intros card Hin. exists (classify (type_line card)). repeat split.
    + now apply classify_in_keys with (cs := cards deck).
    + now apply (in_bucket_iff _ _ _ _ Hc Hin).
    + intros k' Hk'. symmetry. now apply (in_bucket_iff _ _ _ _ Hc Hin).
  - intros card Hin Hnone.
    assert (Hcl : classify (type_line card) = "Other")
      by now apply classify_Other_iff.
    split; [|split].
    + rewrite <- Hcl. now apply classify_in_keys with (cs := cards deck).
    + now apply (in_bucket_iff _ _ _ _ Hc Hin).
    + intros k' Hk'. rewrite <- Hcl. symmetry.
      now apply (in_bucket_iff _ _ _ _ Hc Hin).
  - intros card Hin Ht. apply (in_bucket_iff _ _ _ _ Hc Hin).
    now rewrite Ht.
  - apply (classify_Other_iff "Conspiracy"). reflexivity.
  - intros deck' Hsame. unfold categorize in *. now rewrite Hsame.
Qed.

(** C10.  Each bucket, "Other" included, is the deck's card sequence with
    the cards of other buckets left out, the remaining ones in their
    original order; and the object has an "Other" bucket exactly when
    some card of the deck has a type line in which no declared category
    name occurs. *)
Theorem classifier_keeps_order (deck : Deck) :
  exists o,
    categorize deck = Some o
    /\ (forall k, Subsequence (bucket o k) (cards deck))
    /\ (forall k, In k (keys o) ->
          bucket o k =
          filter (fun c => String.eqb (classify (type_line c)) k) (cards deck))
    /\ (In "Other" (keys o) <->
        exists card,
          In card (cards deck)
          /\ forall k, In k category_names -> ~ Js.Substring k (type_line card)).
Proof.
  destruct (categorize_Classified deck) as (o & Hrun & Hc).
  exists o. split; [assumption|]. split; [|split].
  - intros k. destruct (in_dec string_dec k (keys o)) as [Hk|Hk].
    + rewrite (bucket_filter _ _ _ Hc Hk). apply filter_Subsequence.
    + rewrite (bucket_absent _ _ Hk). apply Subsequence_nil_l.
  - intros k Hk. apply (bucket_filter _ _ _ Hc Hk).
  - destruct Hc as [Hkeys _]. rewrite Hkeys. split.
    + intros Hin. apply in_app_or in Hin. destruct Hin as [Hin|Hin].
      * now apply Other_not_category in Hin.
      * destruct (existsb unmatched (cards deck)) eqn:E; [|destruct Hin].
        apply existsb_exists in E. destruct E as (card & Hcard & Hun).
        exists card. split; [assumption|]. now apply unmatched_iff.
    + intros (card & Hcard & Hun). apply in_or_app. right.
      assert (E : existsb unmatched (cards deck) = true).
      { apply existsb_exists. exists card. split; [assumption|].
        now apply unmatched_iff. }
      rewrite E. now left.
Qed.

End ClassifierClaims.

(** ** The result presenter: claims *)

Section PresenterClaims.
Import Results ClassifierFacts.

Lemma join_lines (cs : list Card) :
  Js.join newline (map (fun c => ("1 " ++ name c)%string) cs)
  = exportAsText_lines cs.
Proof.
  unfold Js.join. induction cs as [|c cs IH]; [reflexivity|].
  destruct cs as [|c' cs]; [reflexivity|].
  change (String.concat newline
            (map (fun c => ("1 " ++ name c)%string) (c :: c' :: cs)))
    with (("1 " ++ name c) ++ newline
          ++ String.concat newline
               (map (fun c => ("1 " ++ name c)%string) (c' :: cs)))%string.
  rewrite IH. reflexivity.
Qed.

Lemma exportAsText_lines_names (cs cs' : list Card) :
  map name cs = map name cs' -> exportAsText_lines cs = exportAsText_lines cs'.
Proof.
  intros H. rewrite <- !join_lines.
  rewrite <- (map_map name (fun n => ("1 " ++ n)%string) cs).
  rewrite <- (map_map name (fun n => ("1 " ++ n)%string) cs').
  now rewrite H.
Qed.

(** C4.  The text handed to the clipboard and the text put in the
    downloaded file are both [exportAsText deck]: one line ["1 {name}"] per
    card in deck order, joined by newlines.  It does not change when the
    cards' quantities are replaced by any others, and on the deck of
    "Sol Ring" and "Arcane Signet" it is the two lines "1 Sol Ring" and
    "1 Arcane Signet", whatever the other fields hold. *)
Theorem export_one_line_per_card (deck : Deck) :
  downloadDeck deck =
    [Download (replace_ws (commander deck) ++ "_Deck.txt") (exportAsText deck)]
  /\ copyDeck deck =
       [ClipboardWrite (exportAsText deck);
        Alert "Deck list copied to clipboard!"]
  /\ (forall q : Card -> Z,
        exportAsText
          (mkDeck (commander deck) (created_at deck)
                  (map (fun c => mkCard (name c) (type_line c) (image_uri c) (q c))
                       (cards deck))
                  (combos deck))
        = exportAsText deck)
  /\ (forall t1 t2 i1 i2 q1 q2,
        exportAsText
          (mkDeck (commander deck) (created_at deck)
                  [mkCard "Sol Ring" t1 i1 q1; mkCard "Arcane Signet" t2 i2 q2]
                  (combos deck))
        = ("1 Sol Ring" ++ newline ++ "1 Arcane Signet")%string).
Proof.
  unfold downloadDeck, copyDeck, exportAsText. rewrite join_lines.
  repeat split.
  intros q. simpl. apply exportAsText_lines_names.
  rewrite map_map. reflexivity.
Qed.

(** C9, as the page implements it.  A failed fetch is written to the
    console and nothing else happens: no request is repeated and the state
    is untouched.  The page shows the loading placeholder exactly while it
    holds no deck, and once a deck has arrived it shows the whole page:
    title, combo count, and every non-empty bucket of the categorisation. *)
Theorem presenter_fetch_failure_logged (st : state) :
  fetchDeck_resume Rejected st = (st, [ConsoleError])
  /\ (render st = Loading <-> deck st = None)
  /\ forall d,
       exists o,
         categorize d = Some o
         /\ render (fst (fetchDeck_resume (Resolved d) st)) =
            Page (commander d) (List.length (combos d))
                 (omap_list CardSection o)
                 (if showCombos st
                  then Some (mkModal (combos d)
                                     (Nat.eqb (List.length (combos d)) 0))
                  else None).
Proof.
  split; [reflexivity|]. split.
  - unfold render. destruct (deck st) as [d|]; [|tauto].
    destruct (categorize_Classified d) as (o & -> & _).
    split; discriminate.
  - intros d. destruct (categorize_Classified d) as (o & Hrun & _).
    exists o. split; [assumption|]. unfold render. simpl. now rewrite Hrun.
Qed.

(** C9 as stated fails: after a failed fetch of job "42" no call the user
    can see as a message has been made, and the page still shows the
    placeholder. *)
Lemma presenter_fetch_failure_not_surfaced :
  ~ (exists e,
        In e (fetchDeck_call "42" ++ snd (fetchDeck_resume Rejected initial))
        /\ is_user_message e = true)
  /\ render (fst (fetchDeck_resume Rejected initial)) = Loading.
Proof.
  split; [|reflexivity].
  intros (e & [<-|[<-|[]]] & H); discriminate.
Qed.

End PresenterClaims.

(** ** The job monitor *)

Module MonitorFacts.
Import Process.

#[local] Ltac split_cases :=
  repeat match goal with
         | |- context [if ?b then _ else _] => destruct b eqn:?
         | |- context [match ?x with _ => _ end] => destruct x eqn:?
         end.

(** The socket exists exactly while the component is mounted. *)
Lemma socket_follows_mount (id : string) (w : world) :
  Reachable id w -> socket_open w = mounted w.
Proof.
  induction 1 as [|w e Hr IH]; [reflexivity|].
  destruct e as [|r|msg| | |r];
    unfold step, checkStatus_resume, checkStatus_resume_stale, onmessage;
    split_cases; simpl; congruence.
Qed.

(** The request of the mounted instance can only be awaited while that
    instance is mounted, and it is then one of the awaited requests. *)
Lemma own_request_mounted (id : string) (w : world) :
  Reachable id w ->
  own_request w = true -> mounted w = true /\ awaiting w <> 0.
Proof.
  induction 1 as [|w e Hr IH]; [discriminate|].
  destruct w as [pg m so aw ow tm tr]. simpl in IH.
  destruct e as [|r|msg| | |r]; simpl.
  - destruct m; simpl; [exact IH|]. intros _. split; [reflexivity|discriminate].
  - destruct aw; simpl; [exact IH|].
    destruct ow, r as [s|]; simpl; try discriminate;
      destruct (String.eqb s "completed"); simpl; discriminate.
  - destruct so; simpl; [|exact IH]. unfold onmessage. simpl.
    destruct (String.eqb (message msg) sentinel); simpl; exact IH.
  - destruct tm; simpl; exact IH.
  - destruct m; simpl; [discriminate | exact IH].
  - destruct ow.
    + destruct aw as [|[|n]]; simpl; try exact IH.
      destruct (IH eq_refl) as [Hm _].
      destruct r as [s|]; simpl; [destruct (String.eqb s "completed")|];
        simpl; intros _; (split; [exact Hm | discriminate]).
    + destruct aw; simpl; [exact IH|].
      destruct r as [s|]; simpl; [destruct (String.eqb s "completed")|];
        simpl; discriminate.
Qed.

(** One frame on a live socket. *)
Lemma onmessage_world (id : string) (msg : LogEvent) (w : world) :
  mounted w = true ->
  onmessage id msg w =
  mkWorld
    (mkState (logs (page w) ++ [msg])
             (if is_sentinel msg then "completed" else status (page w)))
    true (socket_open w) (awaiting w) (own_request w)
    (timers w ++ if is_sentinel msg then [("/results/" ++ id)%string] else [])
    (trace w ++ if is_sentinel msg then [SetTimeout 2000] else []).
Proof.
  intros Hm. unfold onmessage, is_sentinel, update, emit.
  destruct w as [[lg stt] m so aw ow tm tr]. simpl in *. subst m.
  destruct (String.eqb (message msg) sentinel); simpl;
    now rewrite ?app_nil_r.
Qed.

(** A sequence of frames on a live socket. *)
Lemma run_messages (id : string) (msgs : list LogEvent) (w : world) :
  mounted w = true -> socket_open w = true ->
  run id w (map Message msgs) =
  mkWorld
    (mkState (logs (page w) ++ msgs)
             (if existsb is_sentinel msgs then "completed" else status (page w)))
    true true (awaiting w) (own_request w)
    (timers w ++ repeat ("/results/" ++ id)%string (sentinels msgs))
    (trace w ++ repeat (SetTimeout 2000) (sentinels msgs)).
Proof.
  revert w. unfold run, sentinels.
  induction msgs as [|msg msgs IH]; intros w Hm Ho.
  - simpl. rewrite !app_nil_r. destruct w as [[lg stt] m so aw ow tm tr].
    simpl in *. now subst.
  - simpl. rewrite Ho, (onmessage_world id msg w Hm).
    rewrite IH; [|reflexivity|exact Ho].
    simpl. rewrite <- !app_assoc. simpl.
    destruct (is_sentinel msg); simpl; [|reflexivity].
    f_equal. f_equal. now destruct (existsb is_sentinel msgs).
Qed.

(** A pending timer, when it fires, calls [navigate] once. *)
Lemma run_timeouts (id : string) (w : world) :
  trace (run id w (repeat Timeout (List.length (timers w))))
  = trace w ++ map Navigate (timers w)
  /\ timers (run id w (repeat Timeout (List.length (timers w)))) = [].
Proof.
  unfold run. destruct w as [pg m so aw ow tm tr]. simpl.
  revert tr. induction tm as [|path tm IH]; intros tr; simpl.
  - now rewrite app_nil_r.
  - unfold emit. simpl. destruct (IH (tr ++ [Navigate path])) as [Ht Hn].
    rewrite Ht, Hn, <- app_assoc. now split.
Qed.

Lemma existsb_sentinels (msgs : list LogEvent) :
  existsb is_sentinel msgs = negb (Nat.eqb (sentinels msgs) 0).
Proof.
  unfold sentinels. induction msgs as [|msg msgs IH]; simpl; [reflexivity|].
  destruct (is_sentinel msg); simpl; [reflexivity | assumption].
Qed.

Lemma no_sentinels (msgs : list LogEvent) :
  Forall (fun m => message m <> sentinel) msgs ->
  existsb is_sentinel msgs = false.
Proof.
  induction 1 as [|msg msgs Hm _ IH]; simpl; [reflexivity|].
  rewrite IH, orb_false_r. now apply String.eqb_neq.
Qed.

End MonitorFacts.

Section MonitorClaims.
Import Process MonitorFacts.

(** C1, as the page implements it.  Activation issues the status request
    and constructs the socket to /ws/process/{id} in the same turn, before
    any answer is known; whatever the request settles to, the component has
    then opened one connection and it is still open.  When the answer to
    the request of the instance mounted now is "completed", the state
    becomes "completed" and [navigate] to the results is called in that
    turn, with no timer. *)
Theorem monitor_completed_fetch (id : string) (w : world)
        (Hreach : Reachable id w) (Hown : own_request w = true) :
  let w' := step id w (StatusSettled (Resolved "completed")) in
  status (page w') = "completed"
  /\ trace w' = trace w ++ [Navigate ("/results/" ++ id)%string]
  /\ timers w' = timers w
  /\ socket_open w' = socket_open w
  /\ snd (render (page w')) = ViewResultsButton
  /\ trace (step id initial Mount) =
       [HttpGet (API_URL ++ "/deck/" ++ id)%string;
        WsOpen (WS_URL ++ "/" ++ id)%string]
  /\ forall r,
       connections (run id initial [Mount; StatusSettled r]) = 1
       /\ socket_open (run id initial [Mount; StatusSettled r]) = true.
Proof.
  destruct (own_request_mounted id w Hreach Hown) as [Hmounted Hawait].
  destruct (awaiting w) as [|n] eqn:Ha; [congruence|].
  simpl. rewrite Ha, Hown. unfold update, emit. simpl. rewrite Hmounted.
  simpl. repeat split.
  - destruct r as [s|]; simpl; [|reflexivity].
    unfold connections. simpl.
    now destruct (String.eqb s "completed").
  - destruct r as [s|]; simpl; [|reflexivity].
    now destruct (String.eqb s "completed").
Qed.

Lemma monitor_completed_fetch_witness :
  let w := step "42" initial Mount in
  let w' := step "42" w (StatusSettled (Resolved "completed")) in
  status (page w') = "completed"
  /\ trace w' = trace w ++ [Navigate "/results/42"]
  /\ timers w' = timers w
  /\ socket_open w' = socket_open w
  /\ snd (render (page w')) = ViewResultsButton
  /\ trace (step "42" initial Mount) =
       [HttpGet "http://localhost:8000/api/deck/42";
        WsOpen "ws://localhost:8000/ws/process/42"]
  /\ forall r,
       connections (run "42" initial [Mount; StatusSettled r]) = 1
       /\ socket_open (run "42" initial [Mount; StatusSettled r]) = true.
Proof.
  apply (monitor_completed_fetch "42" (step "42" initial Mount)).
  - apply Reachable_step. apply Reachable_initial.
  - reflexivity.
Defined.

(** C1 as stated fails: for job "42", a status fetch that answers
    "completed" is preceded by the construction of the socket. *)
Lemma monitor_completed_fetch_opens_stream :
  trace (run "42" initial [Mount; StatusSettled (Resolved "completed")]) =
    [HttpGet "http://localhost:8000/api/deck/42";
     WsOpen "ws://localhost:8000/ws/process/42";
     Navigate "/results/42"]
  /\ connections
       (run "42" initial [Mount; StatusSettled (Resolved "completed")]) <> 0.
Proof. split; [reflexivity | discriminate]. Qed.


(** C5, as the page implements it.  On a live socket every frame that
    carries the sentinel sets the state to "completed" and calls
    [setTimeout] with 2000 ms for a [navigate] to the results; no
    [navigate] is called when the frame is handled.  The state, once
    "completed", stays so under further frames, while each sentinel frame
    adds a timer of its own, and every pending timer calls [navigate] when
    it fires. *)
Theorem monitor_sentinel_schedules_handoff (id : string) (w : world)
        (msgs : list LogEvent)
        (Hreach : Reachable id w) (Hopen : socket_open w = true) :
  let w' := run id w (map Message msgs) in
  status (page w') =
    (if Nat.eqb (sentinels msgs) 0 then status (page w) else "completed")
  /\ trace w' = trace w ++ repeat (SetTimeout 2000) (sentinels msgs)
  /\ timers w' =
       timers w ++ repeat ("/results/" ++ id)%string (sentinels msgs)
  /\ navigations w' = navigations w
  /\ trace (run id w' (repeat Timeout (List.length (timers w')))) =
       trace w' ++ map Navigate (timers w').
Proof.
  assert (Hm : mounted w = true)
    by (rewrite <- (socket_follows_mount id w Hreach); exact Hopen).
  cbv zeta. split; [|split; [|split; [|split]]].
  - rewrite (run_messages id msgs w Hm Hopen). simpl.
    rewrite existsb_sentinels. now destruct (Nat.eqb (sentinels msgs) 0).
  - now rewrite (run_messages id msgs w Hm Hopen).
  - now rewrite (run_messages id msgs w Hm Hopen).
  - rewrite (run_messages id msgs w Hm Hopen). unfold navigations. simpl.
    rewrite filter_app. rewrite length_app.
    replace (filter is_navigate (repeat (SetTimeout 2000) (sentinels msgs)))
      with (@nil effect); [simpl; lia|].
    induction (sentinels msgs); simpl; auto.
  - apply run_timeouts.
Qed.

Lemma monitor_sentinel_schedules_handoff_witness :
  let w := step "42" initial Mount in
  let w' := run "42" w (map Message [progress_frame; sentinel_frame]) in
  status (page w') =
    (if Nat.eqb (sentinels [progress_frame; sentinel_frame]) 0
     then status (page w) else "completed")
  /\ trace w' =
       trace w ++ repeat (SetTimeout 2000)
                         (sentinels [progress_frame; sentinel_frame])
  /\ timers w' =
       timers w ++ repeat "/results/42"
                          (sentinels [progress_frame; sentinel_frame])
  /\ navigations w' = navigations w
  /\ trace (run "42" w' (repeat Timeout (List.length (timers w')))) =
       trace w' ++ map Navigate (timers w').
Proof.
  apply (monitor_sentinel_schedules_handoff
           "42" (step "42" initial Mount) [progress_frame; sentinel_frame]).
  - apply Reachable_step. apply Reachable_initial.
  - reflexivity.
Defined.

(** C5 as stated fails: with the sentinel delivered twice to the monitor
    of job "42", both timers fire and [navigate] is called twice, the
    second time after the page has been left. *)
Lemma monitor_sentinel_twice_navigates_twice :
  navigations
    (run "42" initial
         [Mount; StatusSettled (Resolved "processing");
          Message sentinel_frame; Message sentinel_frame;
          Timeout; Unmount; Timeout]) = 2.
Proof. reflexivity. Qed.

(** C8.  On a live socket the frames of any sequence are appended to the
    log in the order they arrive, repeated frames included, and the log is
    what the page renders.  A frame whose message is not the sentinel
    leaves the state as it was, and so does a whole sequence of such
    frames. *)
Theorem monitor_log_append_only (id : string) (w : world)
        (msgs : list LogEvent)
        (Hreach : Reachable id w) (Hopen : socket_open w = true) :
  let w' := run id w (map Message msgs) in
  logs (page w') = logs (page w) ++ msgs
  /\ fst (render (page w')) = logs (page w) ++ msgs
  /\ (Forall (fun m => message m <> sentinel) msgs ->
      status (page w') = status (page w))
  /\ (forall msg, message msg <> sentinel ->
        status (page (step id w (Message msg))) = status (page w)).
Proof.
  assert (Hm : mounted w = true)
    by (rewrite <- (socket_follows_mount id w Hreach); exact Hopen).
  cbv zeta. rewrite (run_messages id msgs w Hm Hopen). simpl.
  split; [reflexivity|]. split; [reflexivity|]. split.
  - intros Hns. now rewrite (no_sentinels msgs Hns).
  - intros msg Hns. rewrite Hopen, (onmessage_world id msg w Hm). simpl.
    unfold is_sentinel. apply String.eqb_neq in Hns. now rewrite Hns.
Qed.

Lemma monitor_log_append_only_witness :
  let w := step "42" initial Mount in
  let w' := run "42" w (map Message [progress_frame; progress_frame]) in
  logs (page w') = logs (page w) ++ [progress_frame; progress_frame]
  /\ fst (render (page w')) = logs (page w) ++ [progress_frame; progress_frame]
  /\ (Forall (fun m => message m <> sentinel) [progress_frame; progress_frame] ->
      status (page w') = status (page w))
  /\ (forall msg, message msg <> sentinel ->
        status (page (step "42" w (Message msg))) = status (page w)).
Proof.
  apply (monitor_log_append_only
           "42" (step "42" initial Mount) [progress_frame; progress_frame]).
  - apply Reachable_step. apply Reachable_initial.
  - reflexivity.
Defined.

End MonitorClaims.

(** ** The job submitter: claims *)

Section SubmitterClaims.
Import Generator.

(** C6.  When the commander request is rejected (an error or a timeout),
    the call made exactly one request, told the user with an alert, left
    the commander as it was (present or absent) and cleared the loading
    flag; nothing is sent again. *)
Theorem generateCommander_failure (st : state) :
  let (st', es) := generateCommander Rejected st in
  commander st' = commander st
  /\ es = [HttpPost (API_URL ++ "/generate/commander") (PromptBody (prompt st));
           Alert "Failed to generate commander"]
  /\ List.length (filter is_request es) = 1
  /\ existsb is_user_message es = true
  /\ loadingCmd st' = false
  /\ prompt st' = prompt st.
Proof. simpl. repeat split. Qed.

(** C7.  Without a commander [generateDeck] does nothing, however the
    service would answer.  With a commander and a deck count above one,
    once the service returns a deck id the page alerts that several decks
    were started and only the first is shown, and calls [navigate] once,
    to the process page of the returned id. *)
Theorem generateDeck_multi_job (st : state) :
  (commander st = None -> forall r, generateDeck r st = (st, []))
  /\ (forall c deck_id,
        commander st = Some c ->
        Js.gtb (numDecks st) 1 = true ->
        generateDeck (Resolved deck_id) st =
        (st,
         [HttpPost (API_URL ++ "/generate/deck")
                   (DeckBody (name c) (mode st) (numAgents st) (numDecks st)
                             (useOwned st));
          Alert ("Started generating " ++ Js.number_to_string (numDecks st)
                 ++ " decks. Redirecting to the first one.");
          Navigate ("/process/" ++ deck_id)])
        /\ filter is_navigate (snd (generateDeck (Resolved deck_id) st)) =
           [Navigate ("/process/" ++ deck_id)]).
Proof.
  split.
  - intros Hnone r. unfold generateDeck. now rewrite Hnone.
  - intros c deck_id Hc Hgt. unfold generateDeck. rewrite Hc, Hgt.
    split; reflexivity.
Qed.

Lemma generateDeck_multi_job_witness :
  generateDeck (Resolved "17") Generator.initial = (Generator.initial, [])
  /\ snd (generateDeck (Resolved "17") goblin_request) =
     [HttpPost "http://localhost:8000/api/generate/deck"
               (DeckBody "Krenko, Mob Boss" "Thinking" (Js.Int 1) (Js.Int 3) false);
      Alert "Started generating 3 decks. Redirecting to the first one.";
      Navigate "/process/17"].
Proof.
  split.
  - apply (proj1 (generateDeck_multi_job Generator.initial) eq_refl).
  - pose proof (proj2 (generateDeck_multi_job goblin_request)
                      krenko "17" eq_refl eq_refl) as [H _].
    rewrite H. reflexivity.
Defined.

(** When the deck request is rejected the user is told and the page stays
    where it is. *)
Lemma generateDeck_failure (st : state) (c : Commander) :
  commander st = Some c ->
  snd (generateDeck Rejected st) =
    [HttpPost (API_URL ++ "/generate/deck")
              (DeckBody (name c) (mode st) (numAgents st) (numDecks st)
                        (useOwned st));
     Alert "Failed to start generation"]
  /\ filter is_navigate (snd (generateDeck Rejected st)) = [].
Proof. intros Hc. unfold generateDeck. rewrite Hc. split; reflexivity. Qed.

End SubmitterClaims.

(** * Further properties of the pages *)

(** ** The result presenter: what is on the page *)

Module PresenterFacts.
Import Results ResultsActions ObjectFacts ClassifierFacts BucketFacts.

Lemma Subsequence_refl {A : Type} (l : list A) : Subsequence l l.
Proof.
  induction l; [apply Subsequence_nil | now apply Subsequence_keep].
Qed.

Lemma Subsequence_app_r {A : Type} (l l' : list A) : Subsequence l (l ++ l').
Proof.
  induction l as [|x l IH]; simpl;
    [apply Subsequence_nil_l | now apply Subsequence_keep].
Qed.

Lemma Subsequence_trans {A : Type} (l1 l2 l3 : list A) :
  Subsequence l1 l2 -> Subsequence l2 l3 -> Subsequence l1 l3.
Proof.
  intros H12 H23. revert l1 H12.
  induction H23 as [|x l2 l3 H23 IH|x l2 l3 H23 IH]; intros l1 H12.
  - assumption.
  - apply Subsequence_skip. now apply IH.
  - inversion H12; subst.
    + apply Subsequence_skip. now apply IH.
    + apply Subsequence_keep. now apply IH.
Qed.

Lemma Subsequence_map {A B : Type} (f : A -> B) (l1 l2 : list A) :
  Subsequence l1 l2 -> Subsequence (map f l1) (map f l2).
Proof.
  induction 1; simpl;
    [apply Subsequence_nil | now apply Subsequence_skip
     | now apply Subsequence_keep].
Qed.

(** Leaving out the empty buckets loses no card. *)
Lemma sections_contents (o : object) :
  List.concat (map snd (omap_list CardSection o)) = contents o.
Proof.
  unfold contents. induction o as [|[k v] o IH]; simpl; [reflexivity|].
  destruct v as [|c v]; simpl; [assumption | now rewrite IH].
Qed.

Lemma sections_nonempty (o : object) :
  Forall (fun sec => snd sec <> []) (omap_list CardSection o).
Proof.
  induction o as [|[k v] o IH]; simpl; [constructor|].
  destruct v as [|c v]; simpl; [assumption|].
  constructor; [simpl; discriminate | assumption].
Qed.

Lemma sections_titles (o : object) :
  Subsequence (map fst (omap_list CardSection o))
              (map (fun k => (k ++ "s")%string) (keys o)).
Proof.
  induction o as [|[k v] o IH]; simpl; [apply Subsequence_nil|].
  destruct v as [|c v]; simpl;
    [now apply Subsequence_skip | now apply Subsequence_keep].
Qed.

Lemma Classified_keys (cs : list Card) (o : object) :
  Classified cs o -> Subsequence (keys o) (category_names ++ ["Other"]).
Proof.
  intros [-> _]. destruct (existsb unmatched cs).
  - apply Subsequence_refl.
  - rewrite app_nil_r. apply Subsequence_app_r.
Qed.

End PresenterFacts.

Section PresenterExtras.
Import Results ResultsActions ObjectFacts ClassifierFacts BucketFacts PresenterFacts.

(** X1.  Once a deck has arrived the page is rendered (nothing throws),
    and its card sections together show exactly the cards of the deck,
    each occurrence once; no section is empty; and the headings are a
    selection, in order, of Creatures, Planeswalkers, Instants, Sorcerys,
    Artifacts, Enchantments, Lands, Others, whether or not the combo modal
    is open. *)
Theorem page_shows_every_card_once (d : Deck) (modal_open : bool) :
  let v := render (mkState (Some d) modal_open) in
  v <> Threw
  /\ v <> Loading
  /\ Permutation (List.concat (map snd (sections_of v))) (cards d)
  /\ Forall (fun sec => snd sec <> []) (sections_of v)
  /\ Subsequence (map fst (sections_of v)) headings.
Proof.
  cbv zeta. unfold render. simpl.
  destruct (categorize_Classified d) as (o & Hrun & Hc). rewrite Hrun. simpl.
  split; [discriminate|]. split; [discriminate|]. split; [|split].
  - rewrite sections_contents. apply (forEach_contents _ _ _ Hrun).
  - apply sections_nonempty.
  - apply (Subsequence_trans _ _ _ (sections_titles o)).
    change headings
      with (map (fun k => (k ++ "s")%string) (category_names ++ ["Other"])).
    apply Subsequence_map. now apply Classified_keys with (cs := cards d).
Qed.

(** X2.  With a deck loaded, the "Combo List" button puts up an overlay
    that lists the deck's combos in their order and carries the "no
    combos" notice exactly when the deck has none; the close button takes
    the overlay away; and neither button changes the card sections or the
    deck held. *)
Theorem combo_overlay (st : state) (d : Deck) (Hdeck : deck st = Some d) :
  (exists notice,
      overlay_of (render (setShowCombos true st))
      = Some (mkModal (combos d) notice)
      /\ (notice = true <-> combos d = []))
  /\ overlay_of (render (setShowCombos false st)) = None
  /\ overlay_of (render (setShowCombos false (setShowCombos true st))) = None
  /\ sections_of (render (setShowCombos true st)) = sections_of (render st)
  /\ sections_of (render (setShowCombos false st)) = sections_of (render st)
  /\ deck (setShowCombos true st) = Some d
  /\ deck (setShowCombos false st) = Some d.
Proof.
  unfold render, setShowCombos. simpl. rewrite Hdeck.
  destruct (categorize_Classified d) as (o & -> & _). simpl.
  split.
  - eexists. split; [reflexivity|].
    destruct (combos d); simpl; split; congruence.
  - repeat split; now destruct (showCombos st).
Qed.

Lemma combo_overlay_witness :
  (exists notice,
      overlay_of (render (setShowCombos true (mkState (Some sample_deck) false)))
      = Some (mkModal (combos sample_deck) notice)
      /\ (notice = true <-> combos sample_deck = []))
  /\ overlay_of (render (setShowCombos false (mkState (Some sample_deck) false)))
     = None
  /\ overlay_of
       (render (setShowCombos false
                  (setShowCombos true (mkState (Some sample_deck) false))))
     = None
  /\ sections_of (render (setShowCombos true (mkState (Some sample_deck) false)))
     = sections_of (render (mkState (Some sample_deck) false))
  /\ sections_of (render (setShowCombos false (mkState (Some sample_deck) false)))
     = sections_of (render (mkState (Some sample_deck) false))
  /\ deck (setShowCombos true (mkState (Some sample_deck) false))
     = Some sample_deck
  /\ deck (setShowCombos false (mkState (Some sample_deck) false))
     = Some sample_deck.
Proof.
  apply (combo_overlay (mkState (Some sample_deck) false) sample_deck).
  reflexivity.
Defined.

End PresenterExtras.

(** ** The name of the downloaded file *)

Module FileNameFacts.
Import Results ResultsActions.

Lemma prefix_cons (b a : ascii) (w s : string) :
  prefix (String b w) (String a s) = true <-> b = a /\ prefix w s = true.
Proof.
  simpl. destruct (ascii_dec b a) as [->|Hne].
  - tauto.
  - split; [discriminate | tauto].
Qed.

Lemma prefix_empty (w : string) : prefix w "" = true -> w = "".
Proof. destruct w; [reflexivity | discriminate]. Qed.

Lemma prefix_nil (s : string) : prefix "" s = true.
Proof. now destruct s. Qed.

(** No white-space character has an underscore among its bytes, and none
    is the empty string. *)
Lemma white_space_shape (w : string) :
  In w white_space -> avoids "_" w = true /\ w <> "".
Proof.
  intros Hin.
  assert (H : forallb (fun w => avoids "_" w && negb (String.eqb w ""))
                      white_space = true) by reflexivity.
  rewrite forallb_forall in H. specialize (H w Hin).
  apply andb_true_iff in H. destruct H as [Ha Hn]. split; [assumption|].
  intros ->. discriminate.
Qed.

Lemma avoids_head (c a : ascii) (w rest : string) :
  avoids c (String a w) = true -> prefix (String a w) (String c rest) = false.
Proof.
  simpl. intros H. apply andb_true_iff in H. destruct H as [Hne _].
  destruct (ascii_dec a c) as [->|_]; [|reflexivity].
  now rewrite Ascii.eqb_refl in Hne.
Qed.

Lemma replace_ws_from_cons (a : ascii) (s : string) (in_run : bool) :
  replace_ws_from (String a s) in_run 0 =
  match find (fun w => prefix w (String a s)) white_space with
  | Some w =>
      if in_run then replace_ws_from s true (String.length w - 1)
      else String "_" (replace_ws_from s true (String.length w - 1))
  | None => String a (replace_ws_from s false 0)
  end.
Proof. reflexivity. Qed.

(** The output at a position where no white space starts. *)
Lemma replace_ws_from_plain (a : ascii) (s : string) :
  find (fun w => prefix w (String a s)) white_space = None ->
  replace_ws_from (String a s) false 0 = String a (replace_ws_from s false 0).
Proof. intros H. rewrite replace_ws_from_cons. now rewrite H. Qed.

(** A string without underscore that starts the output starts the input. *)
Lemma prefix_of_output (w s : string) :
  avoids "_" w = true ->
  prefix w (replace_ws_from s false 0) = true -> prefix w s = true.
Proof.
  revert s. induction w as [|b w IH]; intros s Hav Hpre.
  - apply prefix_nil.
  - destruct s as [|a s]; [exact Hpre|].
    destruct (find (fun w => prefix w (String a s)) white_space) as [w0|] eqn:E.
    + exfalso. rewrite replace_ws_from_cons, E in Hpre.
      rewrite (avoids_head _ _ _ _ Hav) in Hpre. discriminate.
    + rewrite (replace_ws_from_plain _ _ E) in Hpre.
      apply prefix_cons in Hpre. destruct Hpre as [-> Hpre].
      apply prefix_cons. split; [reflexivity|].
      apply IH; [|assumption].
      simpl in Hav. apply andb_true_iff in Hav. tauto.
Qed.

Lemma output_head_clean (s w : string) :
  In w white_space -> prefix w (replace_ws_from s false 0) = false.
Proof.
  intros Hin. destruct (white_space_shape w Hin) as [Hav Hne].
  destruct (prefix w (replace_ws_from s false 0)) eqn:Hpre; [|reflexivity].
  exfalso.
  pose proof (prefix_of_output w s Hav Hpre) as Hs.
  destruct w as [|b w]; [congruence|].
  destruct s as [|a s]; [discriminate|].
  destruct (find (fun w => prefix w (String a s)) white_space) as [w0|] eqn:E.
  - rewrite replace_ws_from_cons, E in Hpre.
    rewrite (avoids_head _ _ _ _ Hav) in Hpre. discriminate.
  - rewrite find_none_all in E. rewrite (E _ Hin) in Hs. discriminate.
Qed.

(** No white-space character occurs in what [replace_ws_from] returns. *)
Lemma replace_ws_from_clean (s : string) (in_run : bool) (skip : nat)
      (w : string) :
  In w white_space -> Js.includes (replace_ws_from s in_run skip) w = false.
Proof.
  intros Hin. destruct (white_space_shape w Hin) as [Hav Hne].
  revert in_run skip. induction s as [|a s IH]; intros in_run skip.
  - simpl. destruct w; [congruence | reflexivity].
  - destruct skip as [|n]; [|apply IH].
    destruct (find (fun w => prefix w (String a s)) white_space) as [w0|] eqn:E.
    + rewrite replace_ws_from_cons, E.
      destruct in_run; [apply IH|].
      rewrite includes_unfold, IH, orb_false_r.
      destruct w as [|b w]; [congruence|]. now apply avoids_head.
    + assert (Hout : replace_ws_from (String a s) in_run 0
                     = replace_ws_from (String a s) false 0)
        by (rewrite !replace_ws_from_cons; now rewrite E).
      rewrite Hout, includes_unfold, (output_head_clean _ _ Hin).
      rewrite (replace_ws_from_plain _ _ E). apply IH.
Qed.

(** A string free of white space is returned as it is. *)
Lemma replace_ws_clean_id (s : string) :
  (forall w, In w white_space -> Js.includes s w = false) ->
  replace_ws s = s.
Proof.
  unfold replace_ws. induction s as [|a s IH]; intros Hclean; [reflexivity|].
  assert (E : find (fun w => prefix w (String a s)) white_space = None).
  { apply find_none_all. intros w Hin. specialize (Hclean w Hin).
    rewrite includes_unfold in Hclean. now apply orb_false_elim in Hclean. }
  rewrite (replace_ws_from_plain _ _ E). f_equal. apply IH.
  intros w Hin. specialize (Hclean w Hin).
  rewrite includes_unfold in Hclean. now apply orb_false_elim in Hclean.
Qed.

(** Appending a suffix that starts with an underscore brings in no
    occurrence of a string without underscore. *)
Lemma prefix_app_underscore (w x y : string) :
  avoids "_" w = true ->
  prefix w (x ++ String "_" y)%string = true -> prefix w x = true.
Proof.
  revert x. induction w as [|b w IH]; intros x Hav Hpre.
  - apply prefix_nil.
  - destruct x as [|a x].
    + simpl append in Hpre. rewrite (avoids_head _ _ _ _ Hav) in Hpre.
      discriminate.
    + simpl append in Hpre. apply prefix_cons in Hpre.
      destruct Hpre as [-> Hpre]. apply prefix_cons. split; [reflexivity|].
      apply IH; [|assumption].
      simpl in Hav. apply andb_true_iff in Hav. tauto.
Qed.

Lemma includes_app_underscore (w x y : string) :
  avoids "_" w = true ->
  Js.includes x w = false -> Js.includes (String "_" y) w = false ->
  Js.includes (x ++ String "_" y)%string w = false.
Proof.
  intros Hav Hx Hy. induction x as [|a x IH]; [exact Hy|].
  rewrite includes_unfold in Hx. apply orb_false_elim in Hx.
  destruct Hx as [Hp Hx].
  change (String a x ++ String "_" y)%string
    with (String a (x ++ String "_" y)%string).
  rewrite includes_unfold, (IH Hx), orb_false_r.
  destruct (prefix w (String a (x ++ String "_" y))) eqn:E; [|reflexivity].
  change (String a (x ++ String "_" y)%string)
    with (String a x ++ String "_" y)%string in E.
  apply (prefix_app_underscore _ _ _ Hav) in E. congruence.
Qed.

End FileNameFacts.

Section FileNameExtras.
Import Results ResultsActions FileNameFacts.

(** X3.  The name of the downloaded file is the commander's name with its
    white space replaced, followed by "_Deck.txt", and no white-space
    character of the class [\s] occurs anywhere in it. *)
Theorem file_name_has_no_white_space (d : Deck) :
  file_name d = (replace_ws (commander d) ++ "_Deck.txt")%string
  /\ forallb (fun w => negb (Js.includes (file_name d) w)) white_space = true.
Proof.
  split; [reflexivity|].
  apply forallb_forall. intros w Hin. apply negb_true_iff.
  destruct (white_space_shape w Hin) as [Hav _].
  unfold file_name, downloadDeck.
  apply (includes_app_underscore w _ "Deck.txt" Hav).
  - now apply replace_ws_from_clean.
  - assert (H : forallb (fun w => negb (Js.includes "_Deck.txt" w))
                        white_space = true) by reflexivity.
    rewrite forallb_forall in H. apply negb_true_iff. now apply H.
Qed.

(** X4.  Replacing white space twice gives what replacing it once gives,
    and a name in which no white-space character occurs is returned
    unchanged. *)
Theorem replace_ws_idempotent (s : string) :
  replace_ws (replace_ws s) = replace_ws s
  /\ (forallb (fun w => negb (Js.includes s w)) white_space = true ->
      replace_ws s = s).
Proof.
  split.
  - apply replace_ws_clean_id. intros w Hin. now apply replace_ws_from_clean.
  - intros H. apply replace_ws_clean_id. intros w Hin.
    rewrite forallb_forall in H. apply negb_true_iff. now apply H.
Qed.

Lemma replace_ws_idempotent_witness :
  replace_ws (replace_ws "Krenko, Mob Boss") = replace_ws "Krenko, Mob Boss"
  /\ replace_ws "Krenko,_Mob_Boss" = "Krenko,_Mob_Boss".
Proof.
  split.
  - apply (proj1 (replace_ws_idempotent "Krenko, Mob Boss")).
  - apply (proj2 (replace_ws_idempotent "Krenko,_Mob_Boss")). reflexivity.
Defined.

End FileNameExtras.

(** ** The job monitor: what every run keeps *)

Module TraceFacts.
Import Process ProcessTrace MonitorFacts.

Lemma count_snoc {A : Type} (f : A -> bool) (l : list A) (e : A) :
  List.length (filter f (l ++ [e])) =
  List.length (filter f l) + if f e then 1 else 0.
Proof.
  rewrite filter_app, length_app. simpl. now destruct (f e).
Qed.

Lemma forallb_snoc {A : Type} (f : A -> bool) (l : list A) (e : A) :
  forallb f (l ++ [e]) = forallb f l && f e.
Proof. rewrite forallb_app. simpl. now rewrite andb_true_r. Qed.

(** What one event other than a mount does to the log. *)
Lemma step_logs (id : string) (w : world) (e : event) :
  is_mount e = false ->
  logs (page (step id w e)) =
  logs (page w) ++
  match e with
  | Message msg => if socket_open w && mounted w then [msg] else []
  | _ => []
  end.
Proof.
  destruct w as [[lg stt] m so aw ow tm tr].
  destruct e as [|r|msg| | |r]; simpl; intros He; try discriminate.
  - destruct aw; simpl; [now rewrite app_nil_r|].
    destruct ow, r as [s|]; simpl; try (now rewrite app_nil_r);
      unfold update; simpl;
      destruct (String.eqb s "completed"), m; simpl; now rewrite app_nil_r.
  - unfold onmessage, update; simpl.
    destruct so; simpl; [|now rewrite app_nil_r].
    destruct (String.eqb (message msg) sentinel), m; simpl;
      now rewrite ?app_nil_r.
  - destruct tm; simpl; now rewrite app_nil_r.
  - destruct m; simpl; now rewrite app_nil_r.
  - destruct (aw - (if ow then 1 else 0))%nat; simpl; [now rewrite app_nil_r|].
    destruct r as [s|]; simpl; [|now rewrite app_nil_r].
    destruct (String.eqb s "completed"); simpl; now rewrite app_nil_r.
Qed.

End TraceFacts.

Section MonitorExtras.
Import Process ProcessTrace MonitorFacts TraceFacts.

(** X5.  In every world the monitor can reach, each socket it has opened
    has been closed again, except the one of the mounted component: it
    never holds two at once and leaves none behind.  It has sent exactly
    one status request per socket opened, so it never polls. *)
Theorem monitor_connection_balance (id : string) (w : world)
        (Hreach : Reachable id w) :
  connections w = closes w + (if socket_open w then 1 else 0)
  /\ requests w = connections w.
Proof.
  induction Hreach as [|w e Hr [IH1 IH2]]; [split; reflexivity|].
  pose proof (socket_follows_mount id w Hr) as Hs.
  unfold connections, closes, requests in *.
  destruct w as [pg m so aw ow tm tr]. simpl in *. subst so.
  destruct e as [|r|msg| | |r]; simpl.
  - destruct m; simpl; [tauto|].
    rewrite !count_snoc. simpl. lia.
  - destruct aw; simpl; [tauto|].
    destruct ow, r as [s|]; simpl;
      try (destruct (String.eqb s "completed")); simpl;
      rewrite ?count_snoc; simpl; lia.
  - destruct m; simpl; [|tauto]. unfold onmessage. simpl.
    destruct (String.eqb (message msg) sentinel); simpl;
      rewrite ?count_snoc; simpl; lia.
  - destruct tm; simpl; [tauto|]. rewrite !count_snoc. simpl. lia.
  - destruct m; simpl; [|tauto]. rewrite !count_snoc. simpl. lia.
  - destruct (aw - (if ow then 1 else 0))%nat; simpl; [tauto|].
    destruct r as [s|]; simpl;
      try (destruct (String.eqb s "completed")); simpl;
      rewrite ?count_snoc; simpl; lia.
Qed.

Lemma monitor_connection_balance_witness :
  connections (run "42" initial [Mount; Message sentinel_frame; Unmount; Mount])
  = closes (run "42" initial [Mount; Message sentinel_frame; Unmount; Mount])
    + (if socket_open
            (run "42" initial [Mount; Message sentinel_frame; Unmount; Mount])
       then 1 else 0)
  /\ requests (run "42" initial [Mount; Message sentinel_frame; Unmount; Mount])
     = connections
         (run "42" initial [Mount; Message sentinel_frame; Unmount; Mount]).
Proof.
  apply (monitor_connection_balance "42").
  repeat apply Reachable_step. apply Reachable_initial.
Defined.

(** X6.  Whatever happens, the monitor of job [id] only ever requests the
    status of [id], opens and closes the stream of [id], sets timers of
    2000 ms, writes to the console, and navigates to the results of [id];
    every pending timer is such a navigation.  It never alerts and never
    posts. *)
Theorem monitor_calls_are_bounded (id : string) (w : world)
        (Hreach : Reachable id w) :
  forallb (expected id) (trace w) = true
  /\ forallb (String.eqb ("/results/" ++ id)%string) (timers w) = true.
Proof.
  induction Hreach as [|w e Hr [IH1 IH2]]; [split; reflexivity|].
  destruct w as [pg m so aw ow tm tr]. simpl in *.
  destruct e as [|r|msg| | |r]; simpl.
  - destruct m; simpl; [tauto|].
    rewrite !forallb_snoc, IH1. simpl. rewrite !String.eqb_refl. tauto.
  - destruct aw; simpl; [tauto|].
    destruct ow, r as [s|]; simpl;
      try (destruct (String.eqb s "completed")); simpl;
      rewrite ?forallb_snoc, ?IH1; simpl; rewrite ?String.eqb_refl; tauto.
  - destruct so; simpl; [|tauto]. unfold onmessage. simpl.
    destruct (String.eqb (message msg) sentinel); simpl; [|tauto].
    rewrite !forallb_snoc, IH1, IH2. simpl. rewrite String.eqb_refl. tauto.
  - destruct tm as [|path tm]; simpl; [tauto|].
    simpl in IH2. apply andb_true_iff in IH2. destruct IH2 as [Hp Ht].
    rewrite forallb_snoc, IH1. simpl.
    rewrite String.eqb_sym. tauto.
  - destruct m; simpl; [|tauto].
    rewrite forallb_snoc, IH1. simpl. rewrite String.eqb_refl. tauto.
  - destruct (aw - (if ow then 1 else 0))%nat; simpl; [tauto|].
    destruct r as [s|]; simpl;
      try (destruct (String.eqb s "completed")); simpl;
      rewrite ?forallb_snoc, ?IH1; simpl; rewrite ?String.eqb_refl; tauto.
Qed.

Lemma monitor_calls_are_bounded_witness :
  forallb (expected "42")
          (trace (run "42" initial
                      [Mount; Message sentinel_frame;
                       StatusSettled Rejected; Timeout; Unmount])) = true
  /\ forallb (String.eqb "/results/42")
             (timers (run "42" initial
                          [Mount; Message sentinel_frame;
                           StatusSettled Rejected; Timeout; Unmount])) = true.
Proof.
  apply (monitor_calls_are_bounded "42").
  repeat apply Reachable_step. apply Reachable_initial.
Defined.

(** X8.  Over any sequence of events that does not mount the component
    afresh, the log only grows at its end: what it held stays in place,
    and what is added are frames of the sequence, in the order they
    came. *)
Theorem monitor_log_only_grows (id : string) (w : world) (es : list event)
        (Hsame : forallb (fun e => negb (is_mount e)) es = true) :
  exists added,
    logs (page (run id w es)) = logs (page w) ++ added
    /\ Results.Subsequence added (frames es).
Proof.
  unfold run. revert w. induction es as [|e es IH]; intros w.
  - exists []. split; [now rewrite app_nil_r | constructor].
  - simpl in Hsame. apply andb_true_iff in Hsame. destruct Hsame as [He Hes].
    apply negb_true_iff in He.
    destruct (IH Hes (step id w e)) as (added & Hlogs & Hsub).
    simpl fold_left. rewrite Hlogs, (step_logs id w e He), <- app_assoc.
    eexists. split; [reflexivity|].
    destruct e as [|r|msg| | |r]; simpl; try (now apply Hsub).
    destruct (socket_open w && mounted w); simpl.
    + now apply Results.Subsequence_keep.
    + now apply Results.Subsequence_skip.
Qed.

Lemma monitor_log_only_grows_witness :
  exists added,
    logs (page (run "42" (step "42" initial Mount)
                    [Message progress_frame; StatusSettled (Resolved "processing");
                     Unmount; Message sentinel_frame]))
    = logs (page (step "42" initial Mount)) ++ added
    /\ Results.Subsequence added
         (frames [Message progress_frame; StatusSettled (Resolved "processing");
                  Unmount; Message sentinel_frame]).
Proof.
  apply (monitor_log_only_grows "42" (step "42" initial Mount)).
  reflexivity.
Defined.

(** X9.  The status answer and the stream race.  If the sentinel arrives
    while the mounted instance still awaits the answer to its own status
    request and that answer, when it comes, names any status other than
    "completed", the answer overwrites the "completed" state: the page goes
    back to showing that the agents are collaborating, although the
    navigation to the results stays scheduled. *)
Theorem monitor_late_status_overrides (id : string) (w : world)
        (msg : LogEvent) (data_status : string)
        (Hreach : Reachable id w) (Hopen : socket_open w = true)
        (Hown : own_request w = true)
        (Hmsg : message msg = sentinel)
        (Hother : data_status <> "completed") :
  let w1 := step id w (Message msg) in
  let w2 := step id w1 (StatusSettled (Resolved data_status)) in
  status (page w1) = "completed"
  /\ snd (render (page w1)) = ViewResultsButton
  /\ status (page w2) = data_status
  /\ snd (render (page w2)) = Collaborating
  /\ timers w2 = timers w ++ [("/results/" ++ id)%string]
  /\ navigations w2 = navigations w.
Proof.
  destruct (own_request_mounted id w Hreach Hown) as [Hm Hawait].
  destruct (awaiting w) as [|n] eqn:Ha; [congruence|].
  apply String.eqb_neq in Hother.
  assert (H1 : step id w (Message msg) =
               mkWorld (mkState (logs (page w) ++ [msg]) "completed")
                       true true (S n) true
                       (timers w ++ [("/results/" ++ id)%string])
                       (trace w ++ [SetTimeout 2000])).
  { simpl. rewrite Hopen, (onmessage_world id msg w Hm).
    unfold is_sentinel. now rewrite Hmsg, String.eqb_refl, Ha, Hopen, Hown. }
  cbv zeta. rewrite H1. simpl. unfold update. simpl. rewrite Hother. simpl.
  rewrite ?Hother. repeat split.
  unfold navigations. simpl. rewrite count_snoc. simpl. lia.
Qed.

Lemma monitor_late_status_overrides_witness :
  let w := step "42" initial Mount in
  let w1 := step "42" w (Message sentinel_frame) in
  let w2 := step "42" w1 (StatusSettled (Resolved "processing")) in
  status (page w1) = "completed"
  /\ snd (render (page w1)) = ViewResultsButton
  /\ status (page w2) = "processing"
  /\ snd (render (page w2)) = Collaborating
  /\ timers w2 = timers w ++ ["/results/42"]
  /\ navigations w2 = navigations w.
Proof.
  apply (monitor_late_status_overrides
           "42" (step "42" initial Mount) sentinel_frame "processing").
  - apply Reachable_step. apply Reachable_initial.
  - reflexivity.
  - reflexivity.
  - reflexivity.
  - discriminate.
Defined.

(** X10.  The status request is not cancelled when the page is left.  If
    its answer arrives afterwards, the monitor's state does not change,
    but an answer of "completed" still calls [navigate] to the results,
    while any other answer, and a failure, navigate nowhere. *)
Theorem monitor_status_after_unmount (id : string) (w : world) (n : nat)
        (Hgone : mounted w = false) (Hawait : awaiting w = S n) :
  (forall r, page (step id w (StatusSettled r)) = page w)
  /\ trace (step id w (StatusSettled (Resolved "completed")))
     = trace w ++ [Navigate ("/results/" ++ id)%string]
  /\ (forall s, s <> "completed" ->
        trace (step id w (StatusSettled (Resolved s))) = trace w)
  /\ trace (step id w (StatusSettled Rejected)) = trace w ++ [ConsoleError].
Proof.
  simpl. rewrite Hawait. unfold update, emit. simpl. rewrite Hgone.
  destruct (own_request w); simpl.
  - split; [|split; [reflexivity|split; [|reflexivity]]].
    + intros [s|]; simpl; [|reflexivity].
      now destruct (String.eqb s "completed").
    + intros s Hs. apply String.eqb_neq in Hs. simpl. now rewrite Hs.
  - split; [|split; [reflexivity|split; [|reflexivity]]].
    + intros [s|]; simpl; [|reflexivity].
      now destruct (String.eqb s "completed").
    + intros s Hs. apply String.eqb_neq in Hs. simpl. now rewrite Hs.
Qed.

Lemma monitor_status_after_unmount_witness :
  let w := run "42" initial [Mount; Unmount] in
  (forall r, page (step "42" w (StatusSettled r)) = page w)
  /\ trace (step "42" w (StatusSettled (Resolved "completed")))
     = trace w ++ [Navigate "/results/42"]
  /\ (forall s, s <> "completed" ->
        trace (step "42" w (StatusSettled (Resolved s))) = trace w)
  /\ trace (step "42" w (StatusSettled Rejected)) = trace w ++ [ConsoleError].
Proof.
  apply (monitor_status_after_unmount
           "42" (run "42" initial [Mount; Unmount]) 0);
    reflexivity.
Defined.

End MonitorExtras.

(** ** The job submitter: what the page shows and sends *)

Section SubmitterExtras.
Import Generator GeneratorView.

(** X11.  While the commander request is awaited the "Generate
    Commander" button is disabled; once it has settled, either way, the
    button is enabled exactly when the prompt is not empty.  The call
    sends one request; it changes the commander only when the request
    succeeds, alerts only when it fails, and leaves the prompt and the
    four deck settings alone. *)
Theorem generateCommander_gates_button (st : state) (r : response Commander) :
  generate_disabled (fst (generateCommander_call st)) = true
  /\ generate_disabled (fst (generateCommander r st)) = String.eqb (prompt st) ""
  /\ commander (fst (generateCommander r st)) =
       match r with Resolved data => Some data | Rejected => commander st end
  /\ existsb is_user_message (snd (generateCommander r st)) =
       match r with Resolved _ => false | Rejected => true end
  /\ List.length (filter is_request (snd (generateCommander r st))) = 1
  /\ (prompt (fst (generateCommander r st)),
      mode (fst (generateCommander r st)),
      numAgents (fst (generateCommander r st)),
      numDecks (fst (generateCommander r st)),
      useOwned (fst (generateCommander r st)))
     = (prompt st, mode st, numAgents st, numDecks st, useOwned st).
Proof. destruct r; simpl; repeat split. Qed.

(** X12.  [generateDeck] never changes the page's state.  It sends one
    request when a commander exists and none otherwise; it navigates only
    when that request succeeds, once, to the process page of the id
    returned; and it alerts the several-decks notice exactly when the
    request succeeds and the deck count is a number above one (so not when
    the count field was emptied and holds NaN), and the failure message
    exactly when the request fails. *)
Theorem generateDeck_calls (st : state) (r : response string) :
  fst (generateDeck r st) = st
  /\ List.length (filter is_request (snd (generateDeck r st))) =
       match commander st with Some _ => 1 | None => 0 end
  /\ filter is_navigate (snd (generateDeck r st)) =
       match commander st, r with
       | Some _, Resolved deck_id => [Navigate ("/process/" ++ deck_id)%string]
       | _, _ => []
       end
  /\ filter is_user_message (snd (generateDeck r st)) =
       match commander st, r with
       | None, _ => []
       | Some _, Rejected => [Alert "Failed to start generation"]
       | Some _, Resolved _ =>
           match numDecks st with
           | Js.Int z =>
               if Z.gtb z 1
               then [Alert ("Started generating "
                            ++ Js.number_to_string (numDecks st)
                            ++ " decks. Redirecting to the first one.")%string]
               else []
           | Js.NaN => []
           end
       end.
Proof.
  unfold generateDeck. destruct (commander st) as [c|]; [|repeat split].
  destruct r as [deck_id|]; [|repeat split].
  destruct (numDecks st) as [|z]; simpl; [repeat split|].
  destruct (Z.gtb z 1); simpl; repeat split.
Qed.

(** X13.  The commander preview never shows no image: it shows one image
    per listed commander, or the single image of the commander when none
    is listed.  The names are written under the images exactly when more
    than one commander is listed, and an image is left without a source
    only if the commander's own image is missing too. *)
Theorem commander_preview_images (c : Commander) :
  List.length (commander_images c) = Nat.max 1 (List.length (commanders c))
  /\ Forall (fun im =>
               label im = if Nat.ltb 1 (List.length (commanders c))
                          then Some (alt im) else None)
            (commander_images c)
  /\ Forall (fun im => src im = None -> image_uri c = None)
            (commander_images c).
Proof.
  unfold commander_images. destruct (commanders c) as [|cmd cmds] eqn:E.
  - simpl. repeat split; constructor; auto.
  - rewrite length_map. split; [simpl; lia|]. split.
    + apply Forall_map. apply Forall_forall. now intros x _.
    + apply Forall_map. apply Forall_forall. intros [nm [[|a u]|]] _; simpl; auto;
        discriminate.
Qed.

End SubmitterExtras.

(** ** The inventory page *)

Section InventoryExtras.
Import Inventory InventoryTrace.

Lemma step_keeps_banner (st : state) (e : event) :
  is_dismiss e = false -> banner st <> None -> banner (fst (step st e)) <> None.
Proof.
  intros He Herr. unfold banner in *.
  destruct e as [|[data|f]|[u|f]|card_id [u|f]|[res|f]|text|text|text|];
    simpl in *; try assumption; try discriminate.
  destruct (Z.eqb (reply_status res) 207); simpl; [|assumption].
  destruct (failed res); simpl; [assumption | discriminate].
Qed.

Lemma run_cons (st : state) (e : event) (es : list event) :
  fst (run st (e :: es)) = fst (run (fst (step st e)) es)
  /\ snd (run st (e :: es)) = snd (step st e) ++ snd (run (fst (step st e)) es).
Proof.
  simpl. destruct (step st e) as [st1 cs1]. simpl.
  destruct (run st1 es) as [st2 cs2]. now split.
Qed.

(** X14.  The error banner is never taken down by the page itself: over
    any sequence of events in which the user does not press its close
    button, a banner that is shown stays shown, whatever succeeds
    afterwards. *)
Theorem inventory_error_stays (st : state) (es : list event)
        (Hkept : forallb (fun e => negb (is_dismiss e)) es = true)
        (Hshown : banner st <> None) :
  banner (fst (run st es)) <> None.
Proof.
  revert st Hshown. induction es as [|e es IH]; intros st Hshown;
    [assumption|].
  simpl in Hkept. apply andb_true_iff in Hkept. destruct Hkept as [He Hes].
  apply negb_true_iff in He.
  rewrite (proj1 (run_cons st e es)). apply (IH Hes).
  now apply step_keeps_banner.
Qed.

Lemma inventory_error_stays_witness :
  banner (fst (run failed_add
                  [TypeCardName "Sol Ring"; AddCard (Fulfilled tt);
                   InventoryFetched
                     (Fulfilled [mkItem "1" (mkCard "Sol Ring" "Artifact" None 1)])]))
  <> None.
Proof.
  apply (inventory_error_stays failed_add).
  - reflexivity.
  - discriminate.
Defined.

(** X15.  The list of cards shown is only ever replaced by the answer to
    a fetch of the inventory: adding, deleting and importing do not touch
    it, and neither does a fetch that fails. *)
Theorem inventory_list_changes_by_fetch_only (st : state) (es : list event)
        (Hnone : forallb (fun e => negb (is_fetched e)) es = true) :
  cards (fst (run st es)) = cards st.
Proof.
  revert st. induction es as [|e es IH]; intros st; [reflexivity|].
  simpl in Hnone. apply andb_true_iff in Hnone. destruct Hnone as [He Hes].
  apply negb_true_iff in He.
  rewrite (proj1 (run_cons st e es)), (IH Hes).
  destruct e as [|[data|f]|[u|f]|card_id [u|f]|[res|f]|text|text|text|];
    simpl in *; try reflexivity; try discriminate.
  destruct (Z.eqb (reply_status res) 207); simpl; [|reflexivity].
  now destruct (failed res).
Qed.

Lemma inventory_list_changes_by_fetch_only_witness :
  cards (fst (run failed_add
                  [AddCard (Fulfilled tt); DeleteCard "7" (Fulfilled tt);
                   ImportCards (Fulfilled (mkReply 207 (Some ["Sol Rng"])));
                   InventoryFetched (Failed (mkFailure None "Network Error"))]))
  = cards failed_add.
Proof.
  apply (inventory_list_changes_by_fetch_only failed_add). reflexivity.
Defined.

(** X16.  The page fetches the inventory when it is mounted and after
    every change the server accepted (a card added, a card deleted, an
    import taken), once each time, and at no other moment: over any
    sequence of events it asks for the inventory as many times as it was
    mounted and changes were accepted. *)
Theorem inventory_refetches_once_per_change (st : state) (es : list event) :
  List.length (filter is_refetch (snd (run st es)))
  = List.length (filter is_mounted es) + List.length (filter accepted es).
Proof.
  revert st. induction es as [|e es IH]; intros st; [reflexivity|].
  rewrite (proj2 (run_cons st e es)), filter_app, length_app, IH.
  assert (Hstep : List.length (filter is_refetch (snd (step st e)))
                  = (if is_mounted e then 1 else 0)
                    + (if accepted e then 1 else 0)).
  { destruct e as [|[data|f]|[u|f]|card_id [u|f]|[res|f]|text|text|text|];
      simpl; try reflexivity.
    destruct (Z.eqb (reply_status res) 207); simpl; [|reflexivity].
    now destruct (failed res). }
  rewrite Hstep.
  change (filter accepted (e :: es))
    with (if accepted e then e :: filter accepted es else filter accepted es).
  change (filter is_mounted (e :: es))
    with (if is_mounted e then e :: filter is_mounted es
          else filter is_mounted es).
  destruct (accepted e), (is_mounted e); simpl; lia.
Qed.

(** X17.  What the user typed is cleared exactly when the server took it.
    A failed add keeps the card name and puts up the banner with the
    server's detail, or the error's own message when there is no detail; a
    failed import keeps the pasted text and puts up "Import failed."; an
    import that was taken clears the text and leaves the banner as it was,
    alerting the names that failed when the answer is a 207. *)
Theorem inventory_input_kept_on_failure (st : state) :
  (forall r,
      newCardName (fst (addCard r st)) =
        (if fulfilled r then "" else newCardName st)
      /\ error (fst (addCard r st)) =
           match r with
           | Fulfilled _ => error st
           | Failed f =>
               Some ("Failed to add card: "
                     ++ match detail f with
                        | None | Some "" => message f
                        | Some d => d
                        end)%string
           end)
  /\ (forall r,
        importText (fst (importCards r st)) =
          (if import_taken r then "" else importText st)
        /\ error (fst (importCards r st)) =
             (if import_taken r then error st else Some "Import failed.")
        /\ filter is_alert (snd (importCards r st)) =
             match r with
             | Fulfilled (mkReply status (Some names)) =>
                 if Z.eqb status 207
                 then [AlertBox ("Imported with failures:" ++ Results.newline
                                 ++ Js.join ", " names)%string]
                 else []
             | _ => []
             end).
Proof.
  split.
  - intros [u|f]; simpl; [now split|]. split; [reflexivity|].
    unfold reason. now destruct (detail f) as [[|a d]|].
  - intros [[status names]|f]; simpl; [|repeat split].
    destruct (Z.eqb status 207); simpl; [|now destruct names].
    destruct names; simpl; repeat split.
Qed.

End InventoryExtras.

(** ** The calls of a request that is no longer the page's own *)

Section StaleRequests.
Import Process MonitorFacts.

(** The answer to a request issued by an earlier instance never changes
    what the page mounted now shows. *)
Lemma stale_answer_leaves_page (id : string) (w : world)
      (r : response string) :
  page (step id w (StaleSettled r)) = page w.
Proof.
  simpl. destruct (awaiting w - (if own_request w then 1 else 0))%nat;
    [reflexivity|].
  destruct r as [s|]; simpl; [|reflexivity].
  now destruct (String.eqb s "completed").
Qed.

(** Mounted, left, mounted again: when the first instance's request
    answers "completed", the page of the second stays "pending" and is
    navigated away all the same; its own answer is the one that sets its
    state. *)
Example remount_then_stale_answer :
  let w := run "42" initial [Mount; Unmount; Mount] in
  status (page (step "42" w (StaleSettled (Resolved "completed")))) = "pending"
  /\ trace (step "42" w (StaleSettled (Resolved "completed")))
     = trace w ++ [Navigate "/results/42"]
  /\ status (page (step "42" w (StatusSettled (Resolved "processing"))))
     = "processing"
  /\ awaiting w = 2.
Proof. repeat split. Qed.

End StaleRequests.

(** ** Numbers as the page prints them *)

Example numbers_print_as_doubles :
  Js.number_to_string (Js.Int 3) = "3"
  /\ Js.number_to_string (Js.Int (-5)) = "-5"
  /\ Js.number_to_string (Js.Int 9007199254740993) = "9007199254740992"
  /\ Js.number_to_string (Js.Int 18446744073709551616)
     = "18446744073709552000"
  /\ Js.number_to_string (Js.Int 999999999999999999999) = "1e+21"
  /\ Js.number_to_string (Js.Int 1000000000000000000000) = "1e+21"
  /\ Js.number_to_string (Js.Int 123456789012345678901234)
     = "1.2345678901234569e+23"
  /\ Js.number_to_string Js.NaN = "NaN".
Proof. vm_compute. repeat split. Qed.

Example generateDeck_huge_count :
  snd (Generator.generateDeck (Resolved "17")
         (Generator.mkState "a fast goblin aggro deck" (Some krenko) false
            "Thinking" (Js.Int 1) (Js.Int 1000000000000000000000) false))
  = [HttpPost "http://localhost:8000/api/generate/deck"
       (DeckBody "Krenko, Mob Boss" "Thinking" (Js.Int 1)
                 (Js.Int 1000000000000000000000) false);
     Alert "Started generating 1e+21 decks. Redirecting to the first one.";
     Navigate "/process/17"].
Proof. vm_compute. reflexivity. Qed.
